(** * Appointment lifecycle of the real-estate backend

    A shallow embedding of [backend/sql/schema.sql] (the [appointments]
    table, its unique key and its two triggers) and of the route handlers of
    [backend/routes/appointments.js], followed by the properties of the
    appointment lifecycle that hold, or fail, on that code.

    Conventions.
    - A table is the list of its rows in insertion order.  [id] is the primary
      key of [appointments], so a statement [... WHERE id = ?] touches at most
      one row.
    - A handler is a function from the request and the database to the JSON
      reply and the database after the request.  [NOW()] is a parameter
      ([now], in seconds).
    - Request bodies are taken as express-validator sanitises them: strings
      are trimmed, e-mail addresses normalised, dates and times are the
      values MySQL parses them to, [customerIntent] is one of its four
      admitted values.  The checks on numbers ([isInt({ min: 1 })]) and on
      [outcome] ([isIn]) are part of the handlers.
    - Every appointment references a property ([FOREIGN KEY ... ON DELETE
      CASCADE]); the inner joins with [properties] therefore keep every row
      and are not written out.
    - [sendNotificationEmail] swallows every error it meets and touches
      neither the database nor the reply; it is left out.
    - A statement that fails writes nothing: the tables carry foreign keys,
      so they are InnoDB tables, and the handlers open no transaction, so
      the failed statement is rolled back on its own.  The handler's
      [catch] then answers for it. *)

From Stdlib Require Import ZArith QArith List String Ascii Bool Lia.
From Stdlib Require Import Sorting.Sorted Sorting.Permutation Sorting.Mergesort Orders.
Import ListNotations.

Local Open Scope string_scope.
Local Open Scope list_scope.
Local Open Scope Z_scope.

(* ===================================================================== *)
(** * schema.sql                                                          *)
(* ===================================================================== *)

(** [users.role ENUM('agent', 'admin')] *)
Inductive Role : Type := agent | admin.

(** [properties.status ENUM('available', 'reserved', 'sold')] *)
Inductive PropertyStatus : Type := available | reserved | sold.

(** [appointments.customer_intent ENUM('buy', 'rent', 'invest', 'inquire')] *)
Inductive Intent : Type := buy | rent | invest | inquire.

(** [appointments.status
     ENUM('pending', 'assigned', 'scheduled', 'completed', 'cancelled')] *)
Inductive Status : Type := pending | assigned | scheduled | completed | cancelled.

(** [appointments.outcome
     ENUM('interested', 'offer_made', 'not_interested', 'no_show') NULL].
    [enum_error] is the member [''] (index 0) that MySQL stores when a
    string outside the enumeration is written with strict mode off. *)
Inductive OutcomeEnum : Type :=
  | interested | offer_made | not_interested | no_show | enum_error.

(** A [DATE] and a [TIME] value. *)
Record Date : Type := mkDate { year : Z; month : Z; day : Z }.
Record Time : Type := mkTime { hour : Z; minute : Z; second : Z }.

Record User : Type := mkUser {
  user_id : Z;
  email : string;
  first_name : string;
  role : Role;
  is_active : bool
}.

Record Property : Type := mkProperty {
  prop_id : Z;
  title : string;
  prop_status : PropertyStatus
}.

(** A row of [appointments].  [priority_number] is declared [INT] without
    [NOT NULL], but the [BEFORE INSERT] trigger overwrites it on every insert
    and the only other write is [priority_number - 1], in the other
    trigger: no row holds [NULL].
    [recaptcha_score] holds the score as it is passed, before the rounding
    of [DECIMAL(3, 2)].  The implicit [updated_at] column is read by no query
    and is left out. *)
Record Appointment : Type := mkAppointment {
  id : Z;
  property_id : Z;
  customer_name : string;
  customer_email : string;
  customer_phone : string;
  customer_intent : Intent;
  customer_message : option string;
  priority_number : Z;
  assigned_agent_id : option Z;
  assigned_at : option Z;
  scheduled_date : option Date;
  scheduled_time : option Time;
  status : Status;
  outcome : option OutcomeEnum;
  outcome_notes : option string;
  agent_notes : option string;
  admin_notes : option string;
  completed_at : option Z;
  recaptcha_score : option Q;
  ip_address : string;
  created_at : Z
}.

Record Db : Type := mkDb {
  users : list User;
  properties : list Property;
  appointments : list Appointment;
  auto_increment : Z
}.

Definition with_appointments (tbl : list Appointment) (db : Db) : Db :=
  mkDb (users db) (properties db) tbl (auto_increment db).

(** ** Comparisons on column values *)

Definition role_eqb (a b : Role) : bool :=
  match a, b with agent, agent | admin, admin => true | _, _ => false end.

Definition status_eqb (a b : Status) : bool :=
  match a, b with
  | pending, pending | assigned, assigned | scheduled, scheduled
  | completed, completed | cancelled, cancelled => true
  | _, _ => false
  end.

Definition property_status_eqb (a b : PropertyStatus) : bool :=
  match a, b with
  | available, available | reserved, reserved | sold, sold => true
  | _, _ => false
  end.

Definition date_eqb (a b : Date) : bool :=
  (year a =? year b) && (month a =? month b) && (day a =? day b).

Definition time_eqb (a b : Time) : bool :=
  (hour a =? hour b) && (minute a =? minute b) && (second a =? second b).

(** SQL [col = ?]: a [NULL] column equals nothing. *)
Definition col_eqb {A : Type} (eqb : A -> A -> bool) (col : option A) (v : A) : bool :=
  match col with Some c => eqb c v | None => false end.

(** [COALESCE(x, d)] *)
Definition COALESCE {A : Type} (x : option A) (d : A) : A :=
  match x with Some v => v | None => d end.

(** [MAX(...)] over the selected rows: [NULL] on no row. *)
Definition MAX (l : list Z) : option Z :=
  match l with
  | [] => None
  | x :: r => Some (fold_left Z.max r x)
  end.

(** ** Row updates ([SET] clauses) *)

Definition set_priority_number (n : Z) (a : Appointment) : Appointment :=
  mkAppointment (id a) (property_id a) (customer_name a) (customer_email a)
    (customer_phone a) (customer_intent a) (customer_message a)
    n
    (assigned_agent_id a) (assigned_at a) (scheduled_date a) (scheduled_time a)
    (status a) (outcome a) (outcome_notes a) (agent_notes a) (admin_notes a)
    (completed_at a) (recaptcha_score a) (ip_address a) (created_at a).

(** [SET assigned_agent_id = ?, assigned_at = NOW(), status = 'assigned'] *)
Definition set_assigned (agentId now : Z) (a : Appointment) : Appointment :=
  mkAppointment (id a) (property_id a) (customer_name a) (customer_email a)
    (customer_phone a) (customer_intent a) (customer_message a)
    (priority_number a)
    (Some agentId) (Some now) (scheduled_date a) (scheduled_time a)
    assigned (outcome a) (outcome_notes a) (agent_notes a) (admin_notes a)
    (completed_at a) (recaptcha_score a) (ip_address a) (created_at a).

(** [SET scheduled_date = ?, scheduled_time = ?, agent_notes = ?,
         status = 'scheduled'] *)
Definition set_scheduled (d : Date) (t : Time) (notes : option string)
    (a : Appointment) : Appointment :=
  mkAppointment (id a) (property_id a) (customer_name a) (customer_email a)
    (customer_phone a) (customer_intent a) (customer_message a)
    (priority_number a)
    (assigned_agent_id a) (assigned_at a) (Some d) (Some t)
    scheduled (outcome a) (outcome_notes a) notes (admin_notes a)
    (completed_at a) (recaptcha_score a) (ip_address a) (created_at a).

(** [SET status = 'completed', outcome = ?, outcome_notes = ?,
         agent_notes = COALESCE(?, agent_notes), completed_at = NOW()] *)
Definition set_completed (o : OutcomeEnum) (onotes anotes : option string)
    (now : Z) (a : Appointment) : Appointment :=
  mkAppointment (id a) (property_id a) (customer_name a) (customer_email a)
    (customer_phone a) (customer_intent a) (customer_message a)
    (priority_number a)
    (assigned_agent_id a) (assigned_at a) (scheduled_date a) (scheduled_time a)
    completed (Some o) onotes
    (match anotes with Some n => Some n | None => agent_notes a end)
    (admin_notes a)
    (Some now) (recaptcha_score a) (ip_address a) (created_at a).

(** The newline of the JavaScript template literal ['\nCancelled: ']. *)
Definition nl : string := String (ascii_of_nat 10) EmptyString.

(** [SET status = 'cancelled',
         agent_notes = CONCAT(COALESCE(agent_notes, ''), '\nCancelled: ', ?)] *)
Definition set_cancelled (reason : string) (a : Appointment) : Appointment :=
  mkAppointment (id a) (property_id a) (customer_name a) (customer_email a)
    (customer_phone a) (customer_intent a) (customer_message a)
    (priority_number a)
    (assigned_agent_id a) (assigned_at a) (scheduled_date a) (scheduled_time a)
    cancelled (outcome a) (outcome_notes a)
    (Some (COALESCE (agent_notes a) "" ++ nl ++ "Cancelled: " ++ reason)%string)
    (admin_notes a)
    (completed_at a) (recaptcha_score a) (ip_address a) (created_at a).

(** ** Triggers *)

(** [CREATE TRIGGER before_appointment_insert BEFORE INSERT]:
    [SELECT COALESCE(MAX(priority_number), 0) + 1 INTO max_priority
     FROM appointments WHERE property_id = NEW.property_id;
     SET NEW.priority_number = max_priority]. *)
Definition before_appointment_insert (tbl : list Appointment) (NEW : Appointment)
    : Appointment :=
  let max_priority :=
    COALESCE
      (MAX (map priority_number
              (filter (fun a => property_id a =? property_id NEW) tbl)))
      0 + 1 in
  set_priority_number max_priority NEW.

(** Errors a statement raises ([error.code]). *)
Inductive SqlError : Type :=
  | ER_DUP_ENTRY
  | WARN_DATA_TRUNCATED
  | ER_PARSE_ERROR
  | ER_CANT_UPDATE_USED_TABLE_IN_SF_OR_TRG.

(** The [UPDATE] inside [after_appointment_cancel]:
    [UPDATE appointments SET priority_number = priority_number - 1
     WHERE property_id = NEW.property_id
       AND priority_number > NEW.priority_number AND status != 'cancelled'].
    [renumbering NEW tbl] is the table that statement asks for. *)
Definition renumbering (NEW : Appointment) (tbl : list Appointment)
    : list Appointment :=
  map (fun a =>
         if (property_id a =? property_id NEW)
            && (priority_number a >? priority_number NEW)
            && negb (status_eqb (status a) cancelled)
         then set_priority_number (priority_number a - 1) a
         else a)
      tbl.

(** A statement of a trigger that writes the table the trigger's own
    statement is running on: MySQL (the schema names 5.7 and later) refuses
    it with error 1442, "Can't update table 'appointments' in stored
    function/trigger because it is already used by statement which invoked
    this stored function/trigger".  The table [asked] for is never
    written. *)
Definition update_of_used_table (asked : list Appointment)
    : SqlError + list Appointment :=
  inl ER_CANT_UPDATE_USED_TABLE_IN_SF_OR_TRG.

(** [CREATE TRIGGER after_appointment_cancel AFTER UPDATE ON appointments]:
    [IF OLD.status != 'cancelled' AND NEW.status = 'cancelled' THEN
       UPDATE appointments ... END IF].  The inner [UPDATE] runs only when
    the condition holds; the trigger then fails, and the statement that
    fired it fails with it.  Otherwise the trigger does nothing. *)
Definition after_appointment_cancel (OLD NEW : Appointment)
    (tbl : list Appointment) : SqlError + list Appointment :=
  if negb (status_eqb (status OLD) cancelled) && status_eqb (status NEW) cancelled
  then update_of_used_table (renumbering NEW tbl)
  else inr tbl.

(** ** Statements *)

(** [INSERT INTO appointments (...) VALUES (...)]: the row takes the next
    [AUTO_INCREMENT] id, passes through the [BEFORE INSERT] trigger and is
    appended.  The result is [insertId] and the new database. *)
Definition insert_appointment (NEW : Appointment) (db : Db) : Z * Db :=
  let insertId := auto_increment db in
  let row :=
    before_appointment_insert (appointments db)
      (mkAppointment insertId (property_id NEW) (customer_name NEW)
         (customer_email NEW) (customer_phone NEW) (customer_intent NEW)
         (customer_message NEW) (priority_number NEW) (assigned_agent_id NEW)
         (assigned_at NEW) (scheduled_date NEW) (scheduled_time NEW)
         (status NEW) (outcome NEW) (outcome_notes NEW) (agent_notes NEW)
         (admin_notes NEW) (completed_at NEW) (recaptcha_score NEW)
         (ip_address NEW) (created_at NEW)) in
  (insertId,
   mkDb (users db) (properties db) (appointments db ++ [row]) (insertId + 1)).

(** [SELECT * FROM appointments WHERE id = ?] *)
Definition select_by_id (id0 : Z) (tbl : list Appointment) : option Appointment :=
  find (fun a => id a =? id0) tbl.

(** [UPDATE appointments SET ... WHERE id = ?]: the matching row is
    rewritten, then the [AFTER UPDATE] trigger runs for it.  The result is
    the table after the statement, or the error the statement fails with. *)
Definition update_appointment (id0 : Z) (set : Appointment -> Appointment)
    (tbl : list Appointment) : SqlError + list Appointment :=
  match select_by_id id0 tbl with
  | None => inr tbl
  | Some OLD =>
      after_appointment_cancel OLD (set OLD)
        (map (fun a => if id a =? id0 then set a else a) tbl)
  end.

(** [UNIQUE KEY unique_property_schedule
      (property_id, scheduled_date, scheduled_time)]: the key covers every
    row of the table, whatever its status; rows with a [NULL] date or time
    never collide.  [unique_property_schedule_hit id0 p d t tbl] tells whether
    giving row [id0] the key [(p, d, t)] collides with another row. *)
Definition unique_property_schedule_hit (id0 p : Z) (d : Date) (t : Time)
    (tbl : list Appointment) : bool :=
  existsb (fun a =>
             negb (id a =? id0)
             && (property_id a =? p)
             && col_eqb date_eqb (scheduled_date a) d
             && col_eqb time_eqb (scheduled_time a) t)
          tbl.

(** The [UPDATE] of the schedule route: the only statement that writes
    columns of the unique key. *)
Definition update_schedule (id0 : Z) (d : Date) (t : Time)
    (notes : option string) (tbl : list Appointment)
    : SqlError + list Appointment :=
  match select_by_id id0 tbl with
  | None => inr tbl
  | Some OLD =>
      if unique_property_schedule_hit id0 (property_id OLD) d t tbl
      then inl ER_DUP_ENTRY
      else update_appointment id0 (set_scheduled d t notes) tbl
  end.

(** Writing a string into the [outcome] column.  A string outside the
    enumeration is refused in strict SQL mode and stored as [''] otherwise. *)
Definition outcome_of_string (strict : bool) (s : string)
    : SqlError + OutcomeEnum :=
  if (s =? "interested")%string then inr interested
  else if (s =? "offer_made")%string then inr offer_made
  else if (s =? "not_interested")%string then inr not_interested
  else if (s =? "no_show")%string then inr no_show
  else if strict then inl WARN_DATA_TRUNCATED
  else inr enum_error.

(** The [UPDATE] of the complete route. *)
Definition update_complete (strict : bool) (id0 : Z) (o : string)
    (onotes anotes : option string) (now : Z) (tbl : list Appointment)
    : SqlError + list Appointment :=
  match select_by_id id0 tbl with
  | None => inr tbl
  | Some _ =>
      match outcome_of_string strict o with
      | inl e => inl e
      | inr oc => update_appointment id0 (set_completed oc onotes anotes now) tbl
      end
  end.

(* ===================================================================== *)
(** * routes/appointments.js                                              *)
(* ===================================================================== *)

(** [res.status(http_status).json({ success, message, appointmentId })];
    [success] is [true] exactly on the 2xx replies. *)
Record Reply : Type := mkReply {
  http_status : Z;
  message : string;
  appointmentId : option Z
}.

Definition json (code : Z) (msg : string) : Reply := mkReply code msg None.

Definition success (r : Reply) : bool :=
  (200 <=? http_status r) && (http_status r <? 300).

(** The replies the specification names. *)
Definition DuplicateRequest : Reply :=
  json 400 "You have already submitted a request for this property. We will contact you soon.".
Definition SlotConflict : Reply :=
  json 409 "This time slot is already booked for this property. Please choose a different time.".
Definition SuspiciousActivity : Reply :=
  json 400 "Request blocked due to suspicious activity".
Definition RecaptchaFailed : Reply :=
  json 400 "reCAPTCHA verification failed".
Definition ValidationFailed : Reply := json 400 "Validation failed".
Definition AdminRequired : Reply := json 403 "Admin access required".

(** [req.user], as [authenticateToken] decodes it from the token. *)
Record AuthUser : Type := mkAuthUser { auth_id : Z; auth_role : Role }.

(** The JSON object the reCAPTCHA service answers with. *)
Record RecaptchaResult : Type := mkRecaptcha {
  rc_success : bool;
  rc_score : option Q
}.

(** What the process sees of its environment: the configured secret, the
    outcome of the [fetch] to the verification service ([None] when it
    throws) and the SQL mode of the server. *)
Record Env : Type := mkEnv {
  RECAPTCHA_SECRET_KEY : option string;
  siteverify : string -> string -> option RecaptchaResult;
  strict_sql_mode : bool
}.

(** JavaScript truthiness of an optional string: [undefined] and [""] are
    falsy. *)
Definition truthy (s : option string) : bool :=
  match s with
  | Some v => negb (v =? "")%string
  | None => false
  end.

(** [s || null] *)
Definition or_null (s : option string) : option string :=
  if truthy s then s else None.

(** [s || d] *)
Definition or_default (s : option string) (d : string) : string :=
  match s with
  | Some v => if (v =? "")%string then d else v
  | None => d
  end.

Definition Qltb (x y : Q) : bool := negb (Qle_bool y x).

(** [recaptchaScore < 0.3]; [undefined < 0.3] is [false]. *)
Definition score_too_low (score : option Q) : bool :=
  match score with
  | Some q => Qltb q (3 # 10)
  | None => false
  end.

Definition verifyRecaptcha (env : Env) (token : string) : RecaptchaResult :=
  if truthy (RECAPTCHA_SECRET_KEY env)
  then
    match siteverify env (COALESCE (RECAPTCHA_SECRET_KEY env) "") token with
    | Some response => response
    | None => mkRecaptcha false None
    end
  else mkRecaptcha true (Some 1%Q).

(** ** POST /api/appointments *)

Record CreateBody : Type := mkCreateBody {
  propertyId : Z;
  customerName : string;
  customerEmail : string;
  customerPhone : string;
  customerIntent : Intent;
  customerMessage : option string;
  recaptchaToken : option string
}.

(** The block under [// Verify reCAPTCHA]: the reply that ends the request,
    or the value [recaptchaScore] holds when the handler goes on. *)
Definition recaptcha_gate (env : Env) (recaptchaToken : option string)
    : Reply + option Q :=
  if truthy recaptchaToken then
    let recaptchaResult := verifyRecaptcha env (COALESCE recaptchaToken "") in
    if negb (rc_success recaptchaResult) then inl RecaptchaFailed
    else
      let recaptchaScore := rc_score recaptchaResult in
      (* Block if score is too low (likely bot) *)
      if score_too_low recaptchaScore then inl SuspiciousActivity
      else inr recaptchaScore
  else inr None.

Definition createAppointment (env : Env) (now : Z) (ipAddress : string)
    (body : CreateBody) (db : Db) : Reply * Db :=
  if propertyId body <? 1 then (ValidationFailed, db) else
  match recaptcha_gate env (recaptchaToken body) with
  | inl reply => (reply, db)
  | inr recaptchaScore =>
      (* Verify property exists and is available *)
      match filter (fun p => prop_id p =? propertyId body) (properties db) with
      | [] => (json 404 "Property not found", db)
      | p :: _ =>
          if negb (property_status_eqb (prop_status p) available)
          then (json 400 "Property is no longer available for viewing", db)
          else
            (* Check for duplicate requests *)
            let duplicates :=
              filter (fun a =>
                        (property_id a =? propertyId body)
                        && (customer_email a =? customerEmail body)%string
                        && (created_at a >? now - 24 * 3600))
                     (appointments db) in
            match duplicates with
            | _ :: _ => (DuplicateRequest, db)
            | [] =>
                let '(insertId, db') :=
                  insert_appointment
                    (mkAppointment 0 (propertyId body) (customerName body)
                       (customerEmail body) (customerPhone body)
                       (customerIntent body) (or_null (customerMessage body))
                       0 None None None None pending None None None None None
                       recaptchaScore ipAddress now)
                    db in
                (mkReply 201
                   "Your viewing request has been submitted. We will contact you within 24 hours."
                   (Some insertId),
                 db')
            end
      end
  end.

(** ** GET /api/appointments *)

Definition status_name (s : Status) : string :=
  match s with
  | pending => "pending"
  | assigned => "assigned"
  | scheduled => "scheduled"
  | completed => "completed"
  | cancelled => "cancelled"
  end.

(** [CASE a.status WHEN 'pending' THEN 1 WHEN 'assigned' THEN 2
                   WHEN 'scheduled' THEN 3 ELSE 4 END] *)
Definition status_case (s : Status) : Z :=
  match s with
  | pending => 1
  | assigned => 2
  | scheduled => 3
  | _ => 4
  end.

(** [ORDER BY CASE a.status ... END, a.priority_number ASC,
             a.created_at DESC]: [a] may come before [b]. *)
Definition order_by_leb (a b : Appointment) : bool :=
  if status_case (status a) <? status_case (status b) then true
  else if status_case (status b) <? status_case (status a) then false
  else if priority_number a <? priority_number b then true
  else if priority_number b <? priority_number a then false
  else created_at b <=? created_at a.

Module AdminOrder <: TotalLeBool.
Definition t : Type := Appointment.
Definition leb : t -> t -> bool := order_by_leb.
Theorem leb_total : forall a b, leb a b = true \/ leb b a = true.
Proof.
  intros a b. unfold leb, order_by_leb.
  destruct (status_case (status a) <? status_case (status b)) eqn:E1; [now left|].
  destruct (status_case (status b) <? status_case (status a)) eqn:E2; [now right|].
  destruct (priority_number a <? priority_number b) eqn:E3; [now left|].
  destruct (priority_number b <? priority_number a) eqn:E4; [now right|].
  destruct (Z.leb_spec (created_at b) (created_at a)); [now left|].
  right. apply Z.leb_le. lia.
Qed.
End AdminOrder.

Module AdminSort := Sort AdminOrder.

(** The [WHERE] clause: ['WHERE 1=1'], and [' AND a.status = ?'] when the
    [status] query parameter is truthy. *)
Definition where_status (status_param : option string) (a : Appointment) : bool :=
  if truthy status_param
  then (status_name (status a) =? COALESCE status_param "")%string
  else true.

Inductive ListReply : Type :=
  | list_json (rows : list Appointment) (total : Z)
  | list_error (r : Reply).

(** [page] and [limit] are [parseInt(page)] and [parseInt(limit)].  A
    negative [LIMIT] or [OFFSET] is a syntax error of the statement, which
    the handler's [catch] turns into a 500. *)
Definition listAppointments (user : AuthUser) (status_param : option string)
    (page limit : Z) (db : Db) : ListReply :=
  if negb (role_eqb (auth_role user) admin) then list_error AdminRequired else
  let offset := (page - 1) * limit in
  let selected := filter (where_status status_param) (appointments db) in
  let total := Z.of_nat (List.length selected) in
  if (limit <? 0) || (offset <? 0)
  then list_error (json 500 "Failed to fetch appointments")
  else
    list_json
      (firstn (Z.to_nat limit) (skipn (Z.to_nat offset) (AdminSort.sort selected)))
      total.

(** ** PUT /api/appointments/:id/assign *)

Definition assignAgent (user : AuthUser) (now : Z) (id0 agentId : Z) (db : Db)
    : Reply * Db :=
  if negb (role_eqb (auth_role user) admin) then (AdminRequired, db) else
  if agentId <? 1 then (ValidationFailed, db) else
  (* Verify appointment exists *)
  match select_by_id id0 (appointments db) with
  | None => (json 404 "Appointment not found", db)
  | Some appointment =>
      (* Verify agent exists and is an agent *)
      match filter (fun u => (user_id u =? agentId)
                             && role_eqb (role u) agent
                             && is_active u)
                   (users db) with
      | [] => (json 400 "Agent not found or inactive", db)
      | _ :: _ =>
          (* Assign agent *)
          match update_appointment id0 (set_assigned agentId now)
                  (appointments db) with
          | inr tbl =>
              (json 200 "Agent assigned successfully", with_appointments tbl db)
          | inl _ => (json 500 "Failed to assign agent", db)
          end
      end
  end.

(** ** PUT /api/appointments/:id/schedule *)

(** [SELECT ... WHERE a.id = ? AND a.assigned_agent_id = ?] *)
Definition select_assigned_to (id0 uid : Z) (tbl : list Appointment)
    : option Appointment :=
  find (fun a => (id a =? id0) && col_eqb Z.eqb (assigned_agent_id a) uid) tbl.

(** The double-booking pre-check:
    [SELECT id FROM appointments WHERE property_id = ? AND scheduled_date = ?
     AND scheduled_time = ? AND id != ? AND status != 'cancelled'] *)
Definition conflicts (p : Z) (d : Date) (t : Time) (id0 : Z)
    (tbl : list Appointment) : list Appointment :=
  filter (fun a =>
            (property_id a =? p)
            && col_eqb date_eqb (scheduled_date a) d
            && col_eqb time_eqb (scheduled_time a) t
            && negb (id a =? id0)
            && negb (status_eqb (status a) cancelled))
         tbl.

(** The handler awaits the pre-check and then the [UPDATE]; requests served
    in between may have changed the database.  [concurrent] is what they did
    to it; the identity when the request runs alone. *)
Definition scheduleAppointment (user : AuthUser) (id0 : Z)
    (scheduledDate : Date) (scheduledTime : Time) (agentNotes : option string)
    (concurrent : Db -> Db) (db : Db) : Reply * Db :=
  (* Verify appointment exists and is assigned to this agent *)
  match select_assigned_to id0 (auth_id user) (appointments db) with
  | None => (json 404 "Appointment not found or not assigned to you", db)
  | Some appointment =>
      (* Check for double-booking conflicts *)
      match conflicts (property_id appointment) scheduledDate scheduledTime id0
              (appointments db) with
      | _ :: _ => (SlotConflict, db)
      | [] =>
          let db1 := concurrent db in
          match update_schedule id0 scheduledDate scheduledTime
                  (or_null agentNotes) (appointments db1) with
          | inr tbl =>
              (json 200 "Viewing scheduled successfully", with_appointments tbl db1)
          | inl ER_DUP_ENTRY =>
              (* Handle unique constraint violation *)
              (SlotConflict, db1)
          | inl _ => (json 500 "Failed to schedule viewing", db1)
          end
      end
  end.

Definition alone : Db -> Db := fun db => db.

(** ** PUT /api/appointments/:id/complete *)

(** [body('outcome').isIn([...])] *)
Definition outcome_isIn : list string :=
  ["interested"; "offer_made"; "not_interested"; "no_show"; "needs_followup"].

Definition completeAppointment (env : Env) (user : AuthUser) (now : Z)
    (id0 : Z) (outcome : string) (outcomeNotes agentNotes : option string)
    (db : Db) : Reply * Db :=
  if negb (existsb (String.eqb outcome) outcome_isIn)
  then (ValidationFailed, db) else
  (* Verify appointment exists and is assigned to this agent *)
  match select_assigned_to id0 (auth_id user) (appointments db) with
  | None => (json 404 "Appointment not found or not assigned to you", db)
  | Some _ =>
      match update_complete (strict_sql_mode env) id0 outcome
              (or_null outcomeNotes) agentNotes now (appointments db) with
      | inr tbl =>
          (json 200 "Viewing marked as completed", with_appointments tbl db)
      | inl _ => (json 500 "Failed to complete viewing", db)
      end
  end.

(** ** PUT /api/appointments/:id/cancel *)

(** [SELECT * FROM appointments WHERE id = ?], with
    [AND assigned_agent_id = ?] appended for an agent. *)
Definition cancel_select (user : AuthUser) (id0 : Z) (tbl : list Appointment)
    : option Appointment :=
  match auth_role user with
  | agent => select_assigned_to id0 (auth_id user) tbl
  | admin => select_by_id id0 tbl
  end.

Definition cancelAppointment (user : AuthUser) (id0 : Z)
    (reason : option string) (db : Db) : Reply * Db :=
  (* For agents, verify they are assigned *)
  match cancel_select user id0 (appointments db) with
  | None => (json 404 "Appointment not found", db)
  | Some _ =>
      (* Update appointment *)
      match update_appointment id0
              (set_cancelled (or_default reason "No reason provided"))
              (appointments db) with
      | inr tbl => (json 200 "Appointment cancelled", with_appointments tbl db)
      | inl _ => (json 500 "Failed to cancel appointment", db)
      end
  end.

(* ===================================================================== *)
(** * Requests and runs                                                   *)
(* ===================================================================== *)

(** The requests that change the appointments table. *)
Inductive Request : Type :=
  | POST_appointment (now : Z) (ipAddress : string) (body : CreateBody)
  | PUT_assign (user : AuthUser) (now : Z) (id0 agentId : Z)
  | PUT_schedule (user : AuthUser) (id0 : Z) (d : Date) (t : Time)
      (agentNotes : option string)
  | PUT_complete (user : AuthUser) (now : Z) (id0 : Z) (outcome : string)
      (outcomeNotes agentNotes : option string)
  | PUT_cancel (user : AuthUser) (id0 : Z) (reason : option string).

Definition serve (env : Env) (r : Request) (db : Db) : Reply * Db :=
  match r with
  | POST_appointment now ip body => createAppointment env now ip body db
  | PUT_assign user now id0 agentId => assignAgent user now id0 agentId db
  | PUT_schedule user id0 d t notes => scheduleAppointment user id0 d t notes alone db
  | PUT_complete user now id0 o onotes anotes =>
      completeAppointment env user now id0 o onotes anotes db
  | PUT_cancel user id0 reason => cancelAppointment user id0 reason db
  end.

(** The database after the requests of [rs] were served one after the other. *)
Definition run (env : Env) (rs : list Request) (db : Db) : Db :=
  fold_left (fun d r => snd (serve env r d)) rs db.

(** The replies to the requests of [rs]. *)
Fixpoint replies (env : Env) (rs : list Request) (db : Db) : list Reply :=
  match rs with
  | [] => []
  | r :: rest => fst (serve env r db) :: replies env rest (snd (serve env r db))
  end.

(* ===================================================================== *)
(** * Properties, in the specification's words                            *)
(* ===================================================================== *)

(** The priority numbers of the non-cancelled appointments of property [p]. *)
Definition active_priorities (p : Z) (tbl : list Appointment) : list Z :=
  map priority_number
    (filter (fun a => (property_id a =? p) && negb (status_eqb (status a) cancelled))
       tbl).

(** I1: a dense sequence 1..N with no gaps and no duplicates. *)
Definition dense (l : list Z) : Prop :=
  NoDup l /\ forall n, In n l <-> 1 <= n <= Z.of_nat (List.length l).

(** Another non-cancelled appointment of property [p] holds the slot
    [(d, t)]. *)
Definition slot_taken (p id0 : Z) (d : Date) (t : Time)
    (tbl : list Appointment) : Prop :=
  exists other,
    In other tbl /\ id other <> id0 /\ property_id other = p
    /\ status other <> cancelled
    /\ scheduled_date other = Some d /\ scheduled_time other = Some t.

(** Another row of property [p], of any status, holds the slot [(d, t)]. *)
Definition slot_held (p id0 : Z) (d : Date) (t : Time)
    (tbl : list Appointment) : Prop :=
  exists other,
    In other tbl /\ id other <> id0 /\ property_id other = p
    /\ scheduled_date other = Some d /\ scheduled_time other = Some t.

(** [id] is the primary key. *)
Definition primary_key (tbl : list Appointment) : Prop := NoDup (map id tbl).

(** The primary key of [appointments] with its [AUTO_INCREMENT] counter:
    the ids are pairwise distinct and below the counter. *)
Definition well_keyed (db : Db) : Prop :=
  primary_key (appointments db)
  /\ Forall (fun i => i < auto_increment db) (map id (appointments db)).

(** The statuses the admin list's status priority does not name. *)
Inductive other_status : Status -> Prop :=
  | other_completed : other_status completed
  | other_cancelled : other_status cancelled.

(** Status priority of the admin list: pending before assigned before
    scheduled before all other statuses. *)
Inductive status_priority_before : Status -> Status -> Prop :=
  | pending_before_assigned : status_priority_before pending assigned
  | pending_before_scheduled : status_priority_before pending scheduled
  | pending_before_other s : other_status s -> status_priority_before pending s
  | assigned_before_scheduled : status_priority_before assigned scheduled
  | assigned_before_other s : other_status s -> status_priority_before assigned s
  | scheduled_before_other s : other_status s -> status_priority_before scheduled s.

(** Two statuses of the same status priority: the same status, or two of
    the other statuses. *)
Definition status_priority_tied (s s' : Status) : Prop :=
  s = s' \/ (other_status s /\ other_status s').

(** Admin list order: status priority, then [priorityNumber] ascending, then
    [createdAt] descending. *)
Definition admin_list_order (a b : Appointment) : Prop :=
  status_priority_before (status a) (status b)
  \/ (status_priority_tied (status a) (status b)
      /\ (priority_number a < priority_number b
          \/ (priority_number a = priority_number b
              /\ created_at a >= created_at b))).

(** ** Sample data *)

Module Sample.
Definition env : Env := mkEnv None (fun _ _ => None) true.
Definition lax_env : Env := mkEnv None (fun _ _ => None) false.
Definition root : AuthUser := mkAuthUser 1 admin.
Definition ana : AuthUser := mkAuthUser 5 agent.
Definition ben : AuthUser := mkAuthUser 6 agent.
Definition db0 : Db :=
  mkDb [mkUser 1 "root@example.com" "Root" admin true;
        mkUser 5 "ana@example.com" "Ana" agent true;
        mkUser 6 "ben@example.com" "Ben" agent true;
        mkUser 8 "old@example.com" "Old" agent false]
       [mkProperty 7 "Garden house" available;
        mkProperty 9 "Corner lot" sold]
       [] 1.
Definition request_of (mail : string) : CreateBody :=
  mkCreateBody 7 "Jane Doe" mail "0917-123-4567" buy None None.
Definition hour : Z := 3600.
Definition march1 : Date := mkDate 2025 3 1.
Definition ten : Time := mkTime 10 0 0.

Definition jane : CreateBody := request_of "jane@example.com".
Definition john : CreateBody := request_of "john@example.com".

(** One request, then its assignment to Ana, its schedule on 1 March 2025
    at 10:00 and its completion. *)
Definition requested : Db :=
  run env [POST_appointment 0 "10.0.0.1" jane] db0.
Definition assigned_to_ana : Db :=
  run env [PUT_assign root 100 1 5] requested.
Definition scheduled_by_ana : Db :=
  run env [PUT_schedule ana 1 march1 ten None] assigned_to_ana.
Definition completed_by_ana : Db :=
  run env [PUT_complete ana 7200 1 "interested" None None] scheduled_by_ana.

(** A table holding one request of Jane for property 7 that is cancelled:
    the row was inserted with that status, as [seed.sql] inserts its rows
    with theirs. *)
Definition cancelled_once : Db :=
  mkDb (users db0) (properties db0)
       [mkAppointment 1 7 "Jane Doe" "jane@example.com" "0917-123-4567" buy
          None 1 None None None None cancelled None None
          (Some (nl ++ "Cancelled: customer called")%string) None None
          None "10.0.0.1" 0]
       2.

(** Two requests for property 7, both assigned to Ana; the first one is
    scheduled on 1 March 2025 at 10:00. *)
Definition booked : Db :=
  run env [POST_appointment 0 "10.0.0.1" jane;
           POST_appointment 60 "10.0.0.2" john;
           PUT_assign root 100 1 5;
           PUT_assign root 100 2 5;
           PUT_schedule ana 1 march1 ten None] db0.

(** Two appointments of property 7, both with Ana: the first one was
    scheduled on 1 March 2025 at 10:00 and is cancelled (a row inserted
    with that status), the second one is assigned and not yet scheduled. *)
Definition cancelled_booking : Db :=
  mkDb (users db0) (properties db0)
       [mkAppointment 1 7 "Jane Doe" "jane@example.com" "0917-123-4567" buy
          None 1 (Some 5) (Some 100) (Some march1) (Some ten) cancelled
          None None (Some (nl ++ "Cancelled: customer called")%string) None
          None None "10.0.0.1" 0;
        mkAppointment 2 7 "Jane Doe" "john@example.com" "0917-123-4567" buy
          None 2 (Some 5) (Some 100) None None assigned
          None None None None None None "10.0.0.2" 60]
       3.

(** Five appointments of property 7, one in each status: four requests
    went through the routes (the first one up to its completion, the second
    one up to its schedule, the third one up to its assignment, all with
    Ana), the fifth row was inserted as a cancelled appointment of Ana. *)
Definition eleven : Time := mkTime 11 0 0.
Definition all_statuses : Db :=
  let db := run env [POST_appointment 0 "10.0.0.1" jane;
                     POST_appointment 60 "10.0.0.2" john;
                     POST_appointment 120 "10.0.0.3" (request_of "jim@example.com");
                     POST_appointment 180 "10.0.0.4" (request_of "joan@example.com");
                     PUT_assign root 200 1 5;
                     PUT_assign root 200 2 5;
                     PUT_assign root 200 3 5;
                     PUT_schedule ana 1 march1 ten None;
                     PUT_schedule ana 2 march1 eleven None;
                     PUT_complete ana 7200 1 "interested" None None] db0 in
  mkDb (users db) (properties db)
       (appointments db
        ++ [mkAppointment 5 7 "Jane Doe" "jill@example.com" "0917-123-4567" buy
              None 5 (Some 5) (Some 200) None None cancelled None None
              (Some (nl ++ "Cancelled: customer called")%string) None None
              None "10.0.0.5" 240])
       6.

(** Two requests for property 7, the first with Ben, the second with Ana,
    none scheduled yet. *)
Definition unbooked : Db :=
  run env [POST_appointment 0 "10.0.0.1" jane;
           POST_appointment 60 "10.0.0.2" john;
           PUT_assign root 100 1 6;
           PUT_assign root 100 2 5] db0.

(** Ben books the slot for appointment 1 while Ana's request is between
    its pre-check and its write. *)
Definition ben_books_first (db : Db) : Db :=
  snd (scheduleAppointment ben 1 march1 ten None alone db).

(** A server with a reCAPTCHA secret; the service scores the token
    ["bot"] 0.1 and every other token 0.9. *)
Definition checked_env : Env :=
  mkEnv (Some "secret")
        (fun _ token =>
           if (token =? "bot")%string
           then Some (mkRecaptcha true (Some (1 # 10)%Q))
           else Some (mkRecaptcha true (Some (9 # 10)%Q)))
        true.
Definition with_token (token : string) (body : CreateBody) : CreateBody :=
  mkCreateBody (propertyId body) (customerName body) (customerEmail body)
    (customerPhone body) (customerIntent body) (customerMessage body)
    (Some token).
End Sample.

(* ===================================================================== *)
(** * routes/appointments.js: the read routes                             *)
(* ===================================================================== *)

(** ** Ordering of column values *)

(** [DATE] values in calendar order, [TIME] values in clock order. *)
Definition date_ltb (a b : Date) : bool :=
  if year a <? year b then true
  else if year b <? year a then false
  else if month a <? month b then true
  else if month b <? month a then false
  else day a <? day b.

Definition time_ltb (a b : Time) : bool :=
  if hour a <? hour b then true
  else if hour b <? hour a then false
  else if minute a <? minute b then true
  else if minute b <? minute a then false
  else second a <? second b.

(** [ORDER BY col ASC] on a nullable column: MySQL sorts [NULL] first. *)
Definition col_compare {A : Type} (ltb : A -> A -> bool) (x y : option A)
    : comparison :=
  match x, y with
  | None, None => Eq
  | None, Some _ => Lt
  | Some _, None => Gt
  | Some a, Some b => if ltb a b then Lt else if ltb b a then Gt else Eq
  end.

(** ** GET /api/appointments/my *)

(** [CASE a.status WHEN 'assigned' THEN 1 WHEN 'scheduled' THEN 2 ELSE 3 END] *)
Definition my_status_case (s : Status) : Z :=
  match s with
  | assigned => 1
  | scheduled => 2
  | _ => 3
  end.

(** [ORDER BY CASE a.status ... END, a.scheduled_date ASC,
             a.priority_number ASC] *)
Definition my_order_by_leb (a b : Appointment) : bool :=
  if my_status_case (status a) <? my_status_case (status b) then true
  else if my_status_case (status b) <? my_status_case (status a) then false
  else
    match col_compare date_ltb (scheduled_date a) (scheduled_date b) with
    | Lt => true
    | Gt => false
    | Eq => priority_number a <=? priority_number b
    end.

(** [WHERE a.assigned_agent_id = ?], and [AND a.status = ?] when the
    [status] query parameter is truthy. *)
Definition where_mine (uid : Z) (status_param : option string)
    (a : Appointment) : bool :=
  col_eqb Z.eqb (assigned_agent_id a) uid && where_status status_param a.

(** ** GET /api/appointments/stats *)

(** [SUM(...)]: [NULL] over no row, the sum otherwise. *)
Definition SUM (l : list Z) : option Z :=
  match l with
  | [] => None
  | _ :: _ => Some (fold_right Z.add 0 l)
  end.

(** [COUNT( * )] *)
Definition COUNT {A : Type} (l : list A) : Z := Z.of_nat (List.length l).

(** [SUM(CASE WHEN status = s THEN 1 ELSE 0 END)] *)
Definition sum_case (s : Status) (tbl : list Appointment) : option Z :=
  SUM (map (fun a => if status_eqb (status a) s then 1 else 0) tbl).

Definition outcome_eqb (a b : OutcomeEnum) : bool :=
  match a, b with
  | interested, interested | offer_made, offer_made
  | not_interested, not_interested | no_show, no_show
  | enum_error, enum_error => true
  | _, _ => false
  end.

(** The members of the [outcome] enumeration, by index. *)
Definition outcome_members : list OutcomeEnum :=
  [enum_error; interested; offer_made; not_interested; no_show].

(** [SELECT outcome, COUNT( * ) as count FROM appointments
     WHERE status = 'completed' AND outcome IS NOT NULL GROUP BY outcome]:
    one row per outcome that occurs. *)
Definition outcome_groups (tbl : list Appointment) : list (OutcomeEnum * Z) :=
  let selected :=
    filter (fun a => status_eqb (status a) completed
                     && match outcome a with Some _ => true | None => false end)
           tbl in
  flat_map (fun o =>
              match filter (fun a => col_eqb outcome_eqb (outcome a) o) selected with
              | [] => []
              | g => [(o, COUNT g)]
              end)
           outcome_members.

(** A JavaScript object with outcome keys: [acc[k] = v] and [acc[k]]. *)
Definition obj_set (acc : list (OutcomeEnum * Z)) (k : OutcomeEnum) (v : Z)
    : list (OutcomeEnum * Z) :=
  (k, v) :: filter (fun e => negb (outcome_eqb (fst e) k)) acc.

Definition obj_get (acc : list (OutcomeEnum * Z)) (k : OutcomeEnum) : option Z :=
  match find (fun e => outcome_eqb (fst e) k) acc with
  | Some e => Some (snd e)
  | None => None
  end.

Record Stats : Type := mkStats {
  stat_total : Z;
  stat_pending : option Z;
  stat_assigned : option Z;
  stat_scheduled : option Z;
  stat_completed : option Z;
  stat_cancelled : option Z;
  stat_outcomes : list (OutcomeEnum * Z)
}.

Inductive StatsReply : Type :=
  | stats_json (stats : Stats)
  | stats_error (r : Reply).

Definition getStats (user : AuthUser) (db : Db) : StatsReply :=
  if negb (role_eqb (auth_role user) admin) then stats_error AdminRequired else
  let tbl := appointments db in
  stats_json
    (mkStats (COUNT tbl)
       (sum_case pending tbl) (sum_case assigned tbl) (sum_case scheduled tbl)
       (sum_case completed tbl) (sum_case cancelled tbl)
       (* outcomes.reduce((acc, o) => { acc[o.outcome] = o.count; ... }, {}) *)
       (fold_left (fun acc o => obj_set acc (fst o) (snd o)) (outcome_groups tbl) [])).

(** ** GET /api/appointments/calendar *)

(** [ORDER BY a.scheduled_date ASC, a.scheduled_time ASC] *)
Definition calendar_order_by_leb (a b : Appointment) : bool :=
  match col_compare date_ltb (scheduled_date a) (scheduled_date b) with
  | Lt => true
  | Gt => false
  | Eq =>
      match col_compare time_ltb (scheduled_time a) (scheduled_time b) with
      | Gt => false
      | _ => true
      end
  end.

(** [x BETWEEN lo AND hi] on dates. *)
Definition date_between (x lo hi : Date) : bool :=
  negb (date_ltb x lo) && negb (date_ltb hi x).

(** The [WHERE] clause of the calendar: scheduled or completed rows with a
    date, within [startDate]..[endDate] when both are given, else in the
    given month of the given year when both are given.  [month] and [year]
    are [parseInt(month)] and [parseInt(year)]. *)
Definition calendar_where (startDate endDate : option Date) (month_param year_param : option Z)
    (a : Appointment) : bool :=
  match scheduled_date a with
  | None => false
  | Some d =>
      (status_eqb (status a) scheduled || status_eqb (status a) completed)
      && match startDate, endDate with
         | Some lo, Some hi => date_between d lo hi
         | _, _ =>
             match month_param, year_param with
             | Some m, Some y => (month d =? m) && (year d =? y)
             | _, _ => true
             end
         end
  end.

Lemma col_compare_Gt {A : Type} (ltb : A -> A -> bool) (x y : option A) :
  col_compare ltb x y = Gt -> col_compare ltb y x = Lt.
Proof.
  destruct x as [a|], y as [b|]; simpl; try discriminate; try reflexivity.
  destruct (ltb a b); [discriminate|].
  destruct (ltb b a); [reflexivity|discriminate].
Qed.

Lemma col_compare_Eq {A : Type} (ltb : A -> A -> bool) (x y : option A) :
  col_compare ltb x y = Eq -> col_compare ltb y x = Eq.
Proof.
  destruct x as [a|], y as [b|]; simpl; try discriminate; try reflexivity.
  destruct (ltb a b) eqn:E1; [discriminate|].
  destruct (ltb b a) eqn:E2; [discriminate|reflexivity].
Qed.

Lemma my_order_by_leb_total (a b : Appointment) :
  my_order_by_leb a b = true \/ my_order_by_leb b a = true.
Proof.
  unfold my_order_by_leb.
  destruct (my_status_case (status a) <? my_status_case (status b)) eqn:E1; [now left|].
  destruct (my_status_case (status b) <? my_status_case (status a)) eqn:E2; [now right|].
  destruct (col_compare date_ltb (scheduled_date a) (scheduled_date b)) eqn:E3.
  - rewrite (col_compare_Eq _ _ _ E3).
    destruct (Z.leb_spec (priority_number a) (priority_number b)); [now left|].
    right. apply Z.leb_le. lia.
  - now left.
  - right. now rewrite (col_compare_Gt _ _ _ E3).
Qed.

Module MyOrder <: TotalLeBool.
Definition t : Type := Appointment.
Definition leb : t -> t -> bool := my_order_by_leb.
Definition leb_total : forall a b, leb a b = true \/ leb b a = true :=
  my_order_by_leb_total.
End MyOrder.

Module MySort := Sort MyOrder.

(** [req.user.id] selects the rows; admins may call the route too. *)
Definition listMyAppointments (user : AuthUser) (status_param : option string)
    (page limit : Z) (db : Db) : ListReply :=
  let offset := (page - 1) * limit in
  let selected :=
    filter (where_mine (auth_id user) status_param) (appointments db) in
  let total := Z.of_nat (List.length selected) in
  if (limit <? 0) || (offset <? 0)
  then list_error (json 500 "Failed to fetch appointments")
  else
    list_json
      (firstn (Z.to_nat limit) (skipn (Z.to_nat offset) (MySort.sort selected)))
      total.

Lemma calendar_order_by_leb_total (a b : Appointment) :
  calendar_order_by_leb a b = true \/ calendar_order_by_leb b a = true.
Proof.
  unfold calendar_order_by_leb.
  destruct (col_compare date_ltb (scheduled_date a) (scheduled_date b)) eqn:E1.
  - rewrite (col_compare_Eq _ _ _ E1).
    destruct (col_compare time_ltb (scheduled_time a) (scheduled_time b)) eqn:E2;
      [now left|now left|].
    right. now rewrite (col_compare_Gt _ _ _ E2).
  - now left.
  - right. now rewrite (col_compare_Gt _ _ _ E1).
Qed.

Module CalendarOrder <: TotalLeBool.
Definition t : Type := Appointment.
Definition leb : t -> t -> bool := calendar_order_by_leb.
Definition leb_total : forall a b, leb a b = true \/ leb b a = true :=
  calendar_order_by_leb_total.
End CalendarOrder.

Module CalendarSort := Sort CalendarOrder.

(** The route takes [startDate], [endDate], [month] and [year] from the
    query string and answers with every matching row, all agents included;
    there is no paging. *)
Definition getCalendar (user : AuthUser) (startDate endDate : option Date)
    (month_param year_param : option Z) (db : Db) : list Appointment :=
  CalendarSort.sort
    (filter (calendar_where startDate endDate month_param year_param)
       (appointments db)).

(** ** The read routes, in words *)

Definition date_before (a b : Date) : Prop :=
  year a < year b
  \/ (year a = year b
      /\ (month a < month b \/ (month a = month b /\ day a < day b))).

Definition time_before (a b : Time) : Prop :=
  hour a < hour b
  \/ (hour a = hour b
      /\ (minute a < minute b \/ (minute a = minute b /\ second a < second b))).

(** [x] sorts strictly before [y] in ascending order, a missing value
    before any value. *)
Definition sorts_before {A : Type} (before : A -> A -> Prop) (x y : option A)
    : Prop :=
  match x, y with
  | None, Some _ => True
  | Some a, Some b => before a b
  | _, _ => False
  end.

(** The statuses the agent list's status priority does not name. *)
Inductive my_other_status : Status -> Prop :=
  | my_other_pending : my_other_status pending
  | my_other_completed : my_other_status completed
  | my_other_cancelled : my_other_status cancelled.

(** Status priority of the agent list: assigned before scheduled before the
    rest. *)
Inductive my_status_before : Status -> Status -> Prop :=
  | my_assigned_before_scheduled : my_status_before assigned scheduled
  | my_assigned_before_other s : my_other_status s -> my_status_before assigned s
  | my_scheduled_before_other s : my_other_status s -> my_status_before scheduled s.

Definition my_status_tied (s s' : Status) : Prop :=
  s = s' \/ (my_other_status s /\ my_other_status s').

(** Agent list order: [assigned] before [scheduled] before the rest, then
    the scheduled date ascending (rows without a date first), then the
    priority number ascending. *)
Definition my_list_order (a b : Appointment) : Prop :=
  my_status_before (status a) (status b)
  \/ (my_status_tied (status a) (status b)
      /\ (sorts_before date_before (scheduled_date a) (scheduled_date b)
          \/ (scheduled_date a = scheduled_date b
              /\ priority_number a <= priority_number b))).

(** Calendar order: by date, then by time. *)
Definition calendar_order (a b : Appointment) : Prop :=
  sorts_before date_before (scheduled_date a) (scheduled_date b)
  \/ (scheduled_date a = scheduled_date b
      /\ (sorts_before time_before (scheduled_time a) (scheduled_time b)
          \/ scheduled_time a = scheduled_time b)).

(** The number of rows of [tbl] in status [s]. *)
Definition count_status (s : Status) (tbl : list Appointment) : Z :=
  Z.of_nat (List.length (filter (fun a => status_eqb (status a) s) tbl)).

(** No two rows of different ids hold the same (property, date, time). *)
Definition unique_slots (tbl : list Appointment) : Prop :=
  forall a b d t,
    In a tbl -> In b tbl -> id a <> id b ->
    property_id a = property_id b ->
    scheduled_date a = Some d -> scheduled_date b = Some d ->
    scheduled_time a = Some t -> scheduled_time b = Some t ->
    False.

(** What the statuses tell about the other columns. *)
Definition status_consistent (a : Appointment) : Prop :=
  1 <= priority_number a
  /\ (status a = pending ->
      assigned_agent_id a = None /\ scheduled_date a = None
      /\ scheduled_time a = None /\ outcome a = None /\ completed_at a = None)
  /\ (status a = assigned \/ status a = scheduled \/ status a = completed ->
      assigned_agent_id a <> None)
  /\ (status a = scheduled ->
      scheduled_date a <> None /\ scheduled_time a <> None)
  /\ (status a = completed -> outcome a <> None /\ completed_at a <> None)
  /\ (scheduled_date a = None <-> scheduled_time a = None).

(** The columns no route writes after the insert. *)
Definition creation_columns (a : Appointment)
    : Z * Z * string * string * string * Intent * option string
      * option Q * string * Z :=
  (id a, property_id a, customer_name a, customer_email a, customer_phone a,
   customer_intent a, customer_message a, recaptcha_score a, ip_address a,
   created_at a).

(** A run without cancellation. *)
Definition is_cancel (r : Request) : bool :=
  match r with
  | PUT_cancel _ _ _ => true
  | _ => false
  end.

(** The database is well keyed and every row is consistent with its
    status. *)
Definition consistent (db : Db) : Prop :=
  well_keyed db /\ forall a, In a (appointments db) -> status_consistent a.

(** The columns of the unique key, with the id. *)
Definition slot_key (a : Appointment) : Z * Z * option Date * option Time :=
  (id a, property_id a, scheduled_date a, scheduled_time a).

(** The queue of every property is dense and no row is cancelled. *)
Definition queues_dense (tbl : list Appointment) : Prop :=
  (forall a, In a tbl -> status a <> cancelled)
  /\ forall p, dense (active_priorities p tbl).

(** ** More sample data *)

Module Sample2.
(** A server whose call to the verification service always throws. *)
Definition offline_env : Env := mkEnv (Some "secret") (fun _ _ => None) true.
(* more samples above *)
End Sample2.

(** The number of completed rows of [tbl] with outcome [o]. *)
Definition count_outcome (o : OutcomeEnum) (tbl : list Appointment) : Z :=
  Z.of_nat
    (List.length
       (filter (fun a => status_eqb (status a) completed
                         && col_eqb outcome_eqb (outcome a) o)
          tbl)).

(** The date [d] is in the window the calendar was asked for: between the
    two ends when both are given, else in the month of the year when both
    are given, else anywhere. *)
Definition in_calendar_window (startDate endDate : option Date)
    (month_param year_param : option Z) (d : Date) : Prop :=
  match startDate, endDate with
  | Some lo, Some hi => ~ date_before d lo /\ ~ date_before hi d
  | _, _ =>
      match month_param, year_param with
      | Some m, Some y => month d = m /\ year d = y
      | _, _ => True
      end
  end.

(* ===================================================================== *)
(** * Auxiliary facts                                                     *)
(* ===================================================================== *)

Lemma status_eqb_eq (a b : Status) : status_eqb a b = true <-> a = b.
Proof. destruct a, b; simpl; split; intro H; try reflexivity; discriminate H. Qed.

Lemma status_eqb_neq (a b : Status) : status_eqb a b = false <-> a <> b.
Proof.
  rewrite <- status_eqb_eq. destruct (status_eqb a b); split; congruence.
Qed.

Lemma role_eqb_eq (a b : Role) : role_eqb a b = true <-> a = b.
Proof. destruct a, b; simpl; split; intro H; try reflexivity; discriminate H. Qed.

Lemma date_eqb_eq (a b : Date) : date_eqb a b = true <-> a = b.
Proof.
  unfold date_eqb. rewrite !andb_true_iff, !Z.eqb_eq.
  destruct a, b; simpl. split.
  - intros [[-> ->] ->]. reflexivity.
  - intros H. injection H as -> -> ->. auto.
Qed.

Lemma time_eqb_eq (a b : Time) : time_eqb a b = true <-> a = b.
Proof.
  unfold time_eqb. rewrite !andb_true_iff, !Z.eqb_eq.
  destruct a, b; simpl. split.
  - intros [[-> ->] ->]. reflexivity.
  - intros H. injection H as -> -> ->. auto.
Qed.

Lemma col_eqb_eq {A : Type} (eqb : A -> A -> bool) :
  (forall x y, eqb x y = true <-> x = y) ->
  forall col v, col_eqb eqb col v = true <-> col = Some v.
Proof.
  intros Heq [c|] v; simpl.
  - rewrite Heq. split; congruence.
  - split; discriminate.
Qed.

Lemma Qltb_lt (x y : Q) : Qltb x y = true <-> (x < y)%Q.
Proof.
  unfold Qltb. rewrite negb_true_iff. split.
  - intros H. apply Qnot_le_lt. intros Hle.
    apply Qle_bool_iff in Hle. congruence.
  - intros H. destruct (Qle_bool y x) eqn:E; [|reflexivity].
    apply Qle_bool_iff in E. exfalso. exact (Qlt_not_le _ _ H E).
Qed.

(** [MAX] returns an element of the list that bounds the others. *)
Lemma fold_max_spec (l : list Z) (x : Z) :
  (fold_left Z.max l x = x \/ In (fold_left Z.max l x) l)
  /\ x <= fold_left Z.max l x
  /\ forall y, In y l -> y <= fold_left Z.max l x.
Proof.
  revert x. induction l as [|h l IH]; intros x; simpl.
  - split; [now left|]. split; [lia|]. intros y [].
  - destruct (IH (Z.max x h)) as (Hin & Hle & Hall).
    split; [|split].
    + destruct Hin as [E|Hin]; [|now right; right].
      rewrite E. destruct (Z.max_spec x h) as [[_ ->]|[_ ->]]; auto.
    + lia.
    + intros y [<-|Hy]; [lia|auto].
Qed.

Lemma MAX_spec (l : list Z) (m : Z) :
  MAX l = Some m -> In m l /\ forall y, In y l -> y <= m.
Proof.
  destruct l as [|x l]; simpl; [discriminate|].
  intros H. injection H as <-.
  destruct (fold_max_spec l x) as (Hin & Hle & Hall).
  split.
  - destruct Hin as [->|Hin]; auto.
  - intros y [<-|Hy]; auto.
Qed.

Lemma MAX_none (l : list Z) : MAX l = None <-> l = [].
Proof. destruct l; simpl; split; congruence. Qed.

(* ===================================================================== *)
(** * Priority assignment                                                 *)
(* ===================================================================== *)

Lemma before_insert_priority (tbl : list Appointment) (NEW : Appointment) :
  let row := before_appointment_insert tbl NEW in
  ((forall a, In a tbl -> property_id a <> property_id NEW) ->
     priority_number row = 1)
  /\ ((exists a, In a tbl /\ property_id a = property_id NEW) ->
      exists m, In m tbl /\ property_id m = property_id NEW
        /\ (forall a, In a tbl -> property_id a = property_id NEW ->
              priority_number a <= priority_number m)
        /\ priority_number row = priority_number m + 1).
Proof.
  unfold before_appointment_insert; simpl.
  set (sel := filter (fun a => property_id a =? property_id NEW) tbl).
  assert (Hsel : forall a, In a sel <-> In a tbl /\ property_id a = property_id NEW).
  { intros a. unfold sel. rewrite filter_In, Z.eqb_eq. tauto. }
  split.
  - intros Hnone. destruct sel as [|a sel'] eqn:E; [reflexivity|].
    exfalso. apply (Hnone a); apply (Hsel a); now left.
  - intros (a & Ha & Hp).
    destruct (MAX (map priority_number sel)) as [m|] eqn:E.
    + apply MAX_spec in E. destruct E as (Hin & Hmax).
      apply in_map_iff in Hin. destruct Hin as (r & Hr & Hrin).
      apply Hsel in Hrin. exists r. repeat split; try tauto.
      * intros b Hb Hbp. rewrite Hr. apply Hmax.
        apply in_map. apply Hsel. tauto.
      * simpl. now rewrite Hr.
    + apply MAX_none in E. apply map_eq_nil in E.
      assert (Hin : In a sel) by (apply Hsel; tauto).
      rewrite E in Hin. destruct Hin.
Qed.

(** C7.  When [createAppointment] creates an appointment for property [P]
    (reply 201), the row it appends carries a [priority_number] equal to 1
    when [P] had no appointment, and otherwise to one more than the greatest
    [priority_number] over all the appointments of [P] already stored. *)
Theorem create_assigns_max_plus_one :
  forall env now ip body db reply db',
    createAppointment env now ip body db = (reply, db') ->
    http_status reply = 201 ->
    exists row,
      appointments db' = appointments db ++ [row]
      /\ appointmentId reply = Some (id row)
      /\ property_id row = propertyId body
      /\ ((forall a, In a (appointments db) -> property_id a <> propertyId body) ->
            priority_number row = 1)
      /\ ((exists a, In a (appointments db) /\ property_id a = propertyId body) ->
          exists m, In m (appointments db) /\ property_id m = propertyId body
            /\ (forall a, In a (appointments db) ->
                  property_id a = propertyId body ->
                  priority_number a <= priority_number m)
            /\ priority_number row = priority_number m + 1).
Proof.
  intros env now ip body db reply db' Hrun H201.
  unfold createAppointment in Hrun.
  destruct (propertyId body <? 1);
    [injection Hrun as <- <-; discriminate H201|].
  destruct (recaptcha_gate env (recaptchaToken body)) as [r|score] eqn:Eg.
  { injection Hrun as <- <-. unfold recaptcha_gate in Eg.
    destruct (truthy (recaptchaToken body)); [|discriminate Eg].
    destruct (negb _); [injection Eg as <-; discriminate H201|].
    destruct (score_too_low _); [injection Eg as <-; discriminate H201|].
    discriminate Eg. }
  destruct (filter _ (properties db)) as [|p ps];
    [injection Hrun as <- <-; discriminate H201|].
  destruct (negb _); [injection Hrun as <- <-; discriminate H201|].
  destruct (filter _ (appointments db)) as [|dup dups];
    [|injection Hrun as <- <-; discriminate H201].
  unfold insert_appointment in Hrun. injection Hrun as <- <-.
  match goal with
  | |- context [before_appointment_insert ?tbl ?NEW] =>
      pose proof (before_insert_priority tbl NEW) as Hprio;
      set (row := before_appointment_insert tbl NEW) in *
  end.
  exists row. simpl in Hprio. destruct Hprio as (H1 & H2).
  repeat split; auto.
Qed.

Lemma create_assigns_max_plus_one_witness :
  exists row,
    appointments
      (snd (createAppointment Sample.env 0 "10.0.0.1"
              (Sample.request_of "jane@example.com") Sample.db0))
    = appointments Sample.db0 ++ [row]
    /\ priority_number row = 1.
Proof.
  destruct (create_assigns_max_plus_one Sample.env 0 "10.0.0.1"
              (Sample.request_of "jane@example.com") Sample.db0 _ _
              eq_refl eq_refl)
    as (row & Happ & _ & _ & Hfirst & _).
  exists row. split; [exact Happ|].
  apply Hfirst. intros a [].
Defined.


(* ===================================================================== *)
(** * Scheduling conflict guard                                           *)
(* ===================================================================== *)

Lemma select_by_id_Some (id0 : Z) (tbl : list Appointment) (a : Appointment) :
  select_by_id id0 tbl = Some a -> In a tbl /\ id a = id0.
Proof.
  unfold select_by_id. intros H. apply find_some in H.
  now rewrite Z.eqb_eq in H.
Qed.

Lemma select_by_id_None (id0 : Z) (tbl : list Appointment) :
  select_by_id id0 tbl = None <-> forall a, In a tbl -> id a <> id0.
Proof.
  unfold select_by_id. split.
  - intros H a Ha E. apply (find_none _ _ H) in Ha.
    apply Z.eqb_neq in Ha. contradiction.
  - intros H. destruct (find _ tbl) as [a|] eqn:E; [|reflexivity].
    apply find_some in E. rewrite Z.eqb_eq in E.
    exfalso. now apply (H a).
Qed.

Lemma select_assigned_to_Some (id0 uid : Z) (tbl : list Appointment) (a : Appointment) :
  select_assigned_to id0 uid tbl = Some a ->
  In a tbl /\ id a = id0 /\ assigned_agent_id a = Some uid.
Proof.
  unfold select_assigned_to. intros H. apply find_some in H.
  rewrite andb_true_iff, Z.eqb_eq, (col_eqb_eq Z.eqb Z.eqb_eq) in H. tauto.
Qed.

Lemma select_assigned_to_None (id0 uid : Z) (tbl : list Appointment) :
  select_assigned_to id0 uid tbl = None <->
  forall a, In a tbl -> id a = id0 -> assigned_agent_id a <> Some uid.
Proof.
  unfold select_assigned_to. split.
  - intros H a Ha E Hown. apply (find_none _ _ H) in Ha.
    apply andb_false_iff in Ha. destruct Ha as [Ha|Ha].
    + apply Z.eqb_neq in Ha. contradiction.
    + apply (col_eqb_eq Z.eqb Z.eqb_eq) in Hown. congruence.
  - intros H. destruct (find _ tbl) as [a|] eqn:E; [|reflexivity].
    apply find_some in E.
    rewrite andb_true_iff, Z.eqb_eq, (col_eqb_eq Z.eqb Z.eqb_eq) in E.
    destruct E as (Ha & E & Hown). exfalso. now apply (H a).
Qed.

(** Under the primary key the two ways of fetching a row agree. *)
Lemma primary_key_unique (tbl : list Appointment) (a b : Appointment) :
  primary_key tbl -> In a tbl -> In b tbl -> id a = id b -> a = b.
Proof.
  unfold primary_key. induction tbl as [|x tbl IH]; simpl; [intros _ []|].
  intros Hnd Ha Hb E. inversion Hnd as [|? ? Hx Hnd']; subst.
  destruct Ha as [<-|Ha], Hb as [<-|Hb]; auto.
  - exfalso. apply Hx. rewrite E. now apply in_map.
  - exfalso. apply Hx. rewrite <- E. now apply in_map.
Qed.

Lemma select_assigned_is_select_by_id (id0 uid : Z) (tbl : list Appointment)
    (a : Appointment) :
  primary_key tbl ->
  select_assigned_to id0 uid tbl = Some a -> select_by_id id0 tbl = Some a.
Proof.
  intros Hpk H. apply select_assigned_to_Some in H. destruct H as (Ha & E & _).
  destruct (select_by_id id0 tbl) as [b|] eqn:Eb.
  - apply select_by_id_Some in Eb. destruct Eb as (Hb & E').
    f_equal. apply (primary_key_unique tbl); congruence.
  - exfalso. rewrite select_by_id_None in Eb. now apply (Eb a).
Qed.

Lemma conflicts_slot_taken (p id0 : Z) (d : Date) (t : Time) (tbl : list Appointment) :
  conflicts p d t id0 tbl <> [] <-> slot_taken p id0 d t tbl.
Proof.
  unfold conflicts, slot_taken.
  set (f := fun a : Appointment => _).
  assert (Hf : forall a, f a = true <->
            id a <> id0 /\ property_id a = p /\ status a <> cancelled
            /\ scheduled_date a = Some d /\ scheduled_time a = Some t).
  { intros a. unfold f.
    rewrite !andb_true_iff, !negb_true_iff, Z.eqb_eq, Z.eqb_neq,
      status_eqb_neq, (col_eqb_eq date_eqb date_eqb_eq),
      (col_eqb_eq time_eqb time_eqb_eq). tauto. }
  split.
  - intros H. destruct (filter f tbl) as [|a l] eqn:E; [congruence|].
    assert (Ha : In a (filter f tbl)) by (rewrite E; now left).
    apply filter_In in Ha. destruct Ha as (Ha & Hfa). apply Hf in Hfa.
    exists a. tauto.
  - intros (a & Ha & H) E.
    assert (Hin : In a (filter f tbl)) by (apply filter_In; split; [auto|apply Hf; tauto]).
    rewrite E in Hin. destruct Hin.
Qed.

Lemma unique_hit_slot_held (p id0 : Z) (d : Date) (t : Time) (tbl : list Appointment) :
  unique_property_schedule_hit id0 p d t tbl = true <-> slot_held p id0 d t tbl.
Proof.
  unfold unique_property_schedule_hit, slot_held. rewrite existsb_exists.
  split; intros (a & Ha & H); exists a; split; auto;
    revert H;
    rewrite !andb_true_iff, !negb_true_iff, Z.eqb_eq, Z.eqb_neq,
      (col_eqb_eq date_eqb date_eqb_eq), (col_eqb_eq time_eqb time_eqb_eq);
    tauto.
Qed.

(** A slot taken by a non-cancelled appointment is a slot held. *)
Lemma slot_taken_held (p id0 : Z) (d : Date) (t : Time) (tbl : list Appointment) :
  slot_taken p id0 d t tbl -> slot_held p id0 d t tbl.
Proof. intros (a & H). exists a. tauto. Qed.

(** ** The [UPDATE ... WHERE id = ?] statement *)

Lemma find_map_stable {A : Type} (p : A -> bool) (f : A -> A) (l : list A) :
  (forall x, p (f x) = p x) ->
  find p (map f l) = option_map f (find p l).
Proof.
  intros Hp. induction l as [|x l IH]; simpl; [reflexivity|].
  rewrite Hp. destruct (p x); [reflexivity|exact IH].
Qed.

(** A statement whose [WHERE id = ?] matches no row rewrites none. *)
Lemma map_no_match (id0 : Z) (set : Appointment -> Appointment)
    (tbl : list Appointment) :
  select_by_id id0 tbl = None ->
  map (fun a => if id a =? id0 then set a else a) tbl = tbl.
Proof.
  intros Hnone. rewrite select_by_id_None in Hnone.
  rewrite <- (map_id tbl) at 2. apply map_ext_in. intros a Ha.
  destruct (Z.eqb_spec (id a) id0) as [E|E]; [|reflexivity].
  exfalso. now apply (Hnone a).
Qed.

(** A statement that succeeds has rewritten the matching row and nothing
    else: the trigger writes nothing. *)
Lemma update_appointment_rows (id0 : Z) (set : Appointment -> Appointment)
    (tbl tbl' : list Appointment) :
  update_appointment id0 set tbl = inr tbl' ->
  tbl' = map (fun a => if id a =? id0 then set a else a) tbl.
Proof.
  unfold update_appointment.
  destruct (select_by_id id0 tbl) as [OLD|] eqn:Esel.
  - unfold after_appointment_cancel, update_of_used_table.
    destruct (_ && _); [discriminate|]. now intros [= <-].
  - intros [= <-]. symmetry. now apply map_no_match.
Qed.

(** A [SET] clause that does not write ['cancelled'] leaves the trigger
    idle: the statement succeeds. *)
Lemma update_without_trigger (id0 : Z) (set : Appointment -> Appointment)
    (tbl : list Appointment) :
  (forall a, status (set a) <> cancelled) ->
  update_appointment id0 set tbl
  = inr (map (fun a => if id a =? id0 then set a else a) tbl).
Proof.
  intros Hset. unfold update_appointment.
  destruct (select_by_id id0 tbl) as [OLD|] eqn:Esel.
  - unfold after_appointment_cancel.
    pose proof (proj2 (status_eqb_neq _ _) (Hset OLD)) as Hidle.
    now rewrite Hidle, andb_false_r.
  - f_equal. symmetry. now apply map_no_match.
Qed.

Ltac primary_key_by_computation :=
  unfold primary_key; simpl; repeat constructor; simpl; intuition discriminate.

Ltac trigger_idle :=
  rewrite update_without_trigger by (intro; simpl; discriminate).

(** The [UPDATE] of the cancel route: refused when the row was not yet
    cancelled, carried out when it was. *)
Lemma update_cancel (id0 : Z) (reason : string) (tbl : list Appointment)
    (OLD : Appointment) :
  select_by_id id0 tbl = Some OLD ->
  update_appointment id0 (set_cancelled reason) tbl
  = if status_eqb (status OLD) cancelled
    then inr (map (fun a => if id a =? id0 then set_cancelled reason a else a) tbl)
    else inl ER_CANT_UPDATE_USED_TABLE_IN_SF_OR_TRG.
Proof.
  intros Hsel. unfold update_appointment. rewrite Hsel.
  unfold after_appointment_cancel, update_of_used_table. simpl.
  now destruct (status_eqb (status OLD) cancelled).
Qed.

(** After a successful [UPDATE ... WHERE id = id0] the row [id0] is the old
    row with the [SET] clause applied. *)
Lemma select_after_update (id0 : Z) (set : Appointment -> Appointment)
    (tbl tbl' : list Appointment) (a : Appointment) :
  (forall x, id (set x) = id x) ->
  select_by_id id0 tbl = Some a ->
  update_appointment id0 set tbl = inr tbl' ->
  select_by_id id0 tbl' = Some (set a).
Proof.
  intros Hid Hsel Hupd. apply update_appointment_rows in Hupd. subst tbl'.
  unfold select_by_id in *. rewrite find_map_stable.
  - rewrite Hsel. simpl. apply find_some in Hsel.
    destruct Hsel as [_ ->]. reflexivity.
  - intros x. destruct (id x =? id0) eqn:E; [|exact E].
    now rewrite Hid.
Qed.

(** X17.  The slot guard of the schedule route, for an appointment assigned
    to the caller:
    (a) when another non-cancelled appointment of the same property holds
        exactly the proposed (date, time), the request is rejected by the
        pre-check with [SlotConflict] and nothing is written;
    (b) when the pre-check passes and the [UPDATE] then meets the unique key
        (a request served in between took the slot), the violation is caught
        and answered with the same [SlotConflict], not with a 500;
    (c) when no other row of the property holds that (date, time), a request
        running alone is accepted. *)
Theorem schedule_slot_conflict :
  forall user id0 d t notes db appointment,
    select_assigned_to id0 (auth_id user) (appointments db) = Some appointment ->
    (slot_taken (property_id appointment) id0 d t (appointments db) ->
       forall concurrent,
         scheduleAppointment user id0 d t notes concurrent db = (SlotConflict, db))
    /\ (forall concurrent OLD,
          ~ slot_taken (property_id appointment) id0 d t (appointments db) ->
          select_by_id id0 (appointments (concurrent db)) = Some OLD ->
          slot_held (property_id OLD) id0 d t (appointments (concurrent db)) ->
          scheduleAppointment user id0 d t notes concurrent db
          = (SlotConflict, concurrent db))
    /\ (primary_key (appointments db) ->
        ~ slot_held (property_id appointment) id0 d t (appointments db) ->
        fst (scheduleAppointment user id0 d t notes alone db)
        = json 200 "Viewing scheduled successfully").
Proof.
  intros user id0 d t notes db appointment Hsel.
  unfold scheduleAppointment. rewrite Hsel.
  split; [|split].
  - intros Htaken concurrent. apply conflicts_slot_taken in Htaken.
    destruct (conflicts _ _ _ _ _); [congruence|reflexivity].
  - intros concurrent OLD Hfree HOLD Hheld.
    destruct (conflicts _ _ _ _ _) as [|c cs] eqn:E.
    + unfold update_schedule. rewrite HOLD.
      apply unique_hit_slot_held in Hheld. now rewrite Hheld.
    + exfalso. apply Hfree. apply conflicts_slot_taken. congruence.
  - intros Hpk Hfree.
    destruct (conflicts _ _ _ _ _) as [|c cs] eqn:E.
    + unfold alone, update_schedule.
      rewrite (select_assigned_is_select_by_id _ _ _ _ Hpk Hsel).
      destruct (unique_property_schedule_hit _ _ _ _ _) eqn:Eu;
        [|now trigger_idle].
      apply unique_hit_slot_held in Eu. contradiction.
    + exfalso. apply Hfree. apply slot_taken_held.
      apply conflicts_slot_taken. congruence.
Qed.

Lemma schedule_slot_conflict_witness :
  scheduleAppointment Sample.ana 2 Sample.march1 Sample.ten None alone Sample.booked
  = (SlotConflict, Sample.booked)
  /\ scheduleAppointment Sample.ana 2 Sample.march1 Sample.ten None
       Sample.ben_books_first Sample.unbooked
     = (SlotConflict, Sample.ben_books_first Sample.unbooked)
  /\ fst (scheduleAppointment Sample.ana 2 Sample.march1 Sample.ten None alone
            Sample.unbooked)
     = json 200 "Viewing scheduled successfully".
Proof.
  split; [|split].
  - refine (proj1 (schedule_slot_conflict Sample.ana 2 Sample.march1 Sample.ten
                     None Sample.booked _ eq_refl) _ alone).
    eexists. split; [left; reflexivity|].
    simpl. repeat split; try reflexivity; discriminate.
  - refine (proj1 (proj2 (schedule_slot_conflict Sample.ana 2 Sample.march1
                            Sample.ten None Sample.unbooked _ eq_refl))
              Sample.ben_books_first _ _ eq_refl _).
    + intros (other & Hin & _ & _ & _ & Hd & _).
      simpl in Hin. destruct Hin as [<-|[<-|[]]]; discriminate Hd.
    + eexists. split; [left; reflexivity|].
      simpl. repeat split; try reflexivity; discriminate.
  - refine (proj2 (proj2 (schedule_slot_conflict Sample.ana 2 Sample.march1
                            Sample.ten None Sample.unbooked _ eq_refl)) _ _).
    + unfold primary_key. simpl.
      repeat constructor; simpl; intuition discriminate.
    + intros (other & Hin & _ & _ & Hd & _).
      simpl in Hin. destruct Hin as [<-|[<-|[]]]; discriminate Hd.
Defined.

(** X18.  The reply of the schedule route to the agent of the appointment,
    for a request running alone: it is [SlotConflict] exactly when another
    row of the property, of whatever status, holds the proposed (date,
    time), and "Viewing scheduled successfully" exactly when none does; on
    a table without cancelled rows it is [SlotConflict] exactly when another
    non-cancelled appointment of the property holds the slot. *)
Theorem schedule_conflict_for_the_owner :
  forall user id0 d t notes db a,
    primary_key (appointments db) ->
    select_assigned_to id0 (auth_id user) (appointments db) = Some a ->
    let reply := fst (scheduleAppointment user id0 d t notes alone db) in
    (reply = SlotConflict <-> slot_held (property_id a) id0 d t (appointments db))
    /\ (reply = json 200 "Viewing scheduled successfully"
        <-> ~ slot_held (property_id a) id0 d t (appointments db))
    /\ ((forall x, In x (appointments db) -> status x <> cancelled) ->
        (reply = SlotConflict
         <-> slot_taken (property_id a) id0 d t (appointments db))).
Proof.
  intros user id0 d t notes db a Hpk Hsel reply.
  assert (Hcases : (reply = SlotConflict
                    /\ slot_held (property_id a) id0 d t (appointments db))
                   \/ (reply = json 200 "Viewing scheduled successfully"
                       /\ ~ slot_held (property_id a) id0 d t (appointments db))).
  { unfold reply, scheduleAppointment, alone. rewrite Hsel.
    destruct (conflicts _ _ _ _ _) as [|c cs] eqn:Ec.
    - unfold update_schedule.
      rewrite (select_assigned_is_select_by_id _ _ _ _ Hpk Hsel).
      destruct (unique_property_schedule_hit _ _ _ _ _) eqn:Eu.
      + left. split; [reflexivity|now apply unique_hit_slot_held].
      + right. trigger_idle. split; [reflexivity|].
        intros Hheld. apply unique_hit_slot_held in Hheld. congruence.
    - left. split; [reflexivity|].
      apply slot_taken_held, conflicts_slot_taken. congruence. }
  assert (Hdiff : SlotConflict <> json 200 "Viewing scheduled successfully")
    by discriminate.
  split; [|split].
  - destruct Hcases as [(E & Hheld)|(E & Hfree)]; rewrite E; split;
      try tauto; intros E'; congruence.
  - destruct Hcases as [(E & Hheld)|(E & Hfree)]; rewrite E; split;
      try tauto; intros E'; congruence.
  - intros Hact.
    assert (Hsame : slot_taken (property_id a) id0 d t (appointments db)
                    <-> slot_held (property_id a) id0 d t (appointments db)).
    { split; [apply slot_taken_held|].
      intros (other & Hin & Hrest). exists other.
      pose proof (Hact other Hin). tauto. }
    rewrite Hsame.
    destruct Hcases as [(E & Hheld)|(E & Hfree)]; rewrite E; split;
      try tauto; intros E'; congruence.
Qed.

Lemma schedule_conflict_for_the_owner_witness :
  fst (scheduleAppointment Sample.ana 2 Sample.march1 Sample.ten None alone
         Sample.booked) = SlotConflict
  /\ fst (scheduleAppointment Sample.ana 2 Sample.march1 Sample.eleven None alone
            Sample.booked) = json 200 "Viewing scheduled successfully"
  /\ slot_taken 7 2 Sample.march1 Sample.ten (appointments Sample.booked).
Proof.
  assert (Hpk : primary_key (appointments Sample.booked))
    by primary_key_by_computation.
  assert (Hheld : slot_held 7 2 Sample.march1 Sample.ten (appointments Sample.booked)).
  { eexists. split; [left; reflexivity|].
    simpl. repeat split; try reflexivity; discriminate. }
  assert (Hact : forall x, In x (appointments Sample.booked) -> status x <> cancelled).
  { intros x [<-|[<-|[]]]; discriminate. }
  split; [|split].
  - exact (proj2 (proj1 (schedule_conflict_for_the_owner Sample.ana 2 Sample.march1
                           Sample.ten None Sample.booked _ Hpk eq_refl)) Hheld).
  - apply (proj2 (proj1 (proj2 (schedule_conflict_for_the_owner Sample.ana 2
                                  Sample.march1 Sample.eleven None Sample.booked _
                                  Hpk eq_refl)))).
    intros (other & Hin & _ & _ & _ & Ht).
    simpl in Hin. destruct Hin as [<-|[<-|[]]]; discriminate Ht.
  - apply (proj1 (proj2 (proj2 (schedule_conflict_for_the_owner Sample.ana 2
                                  Sample.march1 Sample.ten None Sample.booked _
                                  Hpk eq_refl)) Hact)).
    exact (proj2 (proj1 (schedule_conflict_for_the_owner Sample.ana 2 Sample.march1
                           Sample.ten None Sample.booked _ Hpk eq_refl)) Hheld).
Defined.

(** C2.  The unique key counts cancelled rows, the pre-check does not.
    Appointment 1 of property 7 is cancelled and still carries its slot,
    1 March 2025 at 10:00; Ana asks to schedule appointment 2 of the same
    property, which is assigned to her, on that slot.  No other
    non-cancelled appointment holds the slot and the pre-check finds no
    conflict, but the [UPDATE] meets the unique key and the request is
    answered [SlotConflict]. *)
Theorem cancelled_row_still_blocks_slot :
  let db := Sample.cancelled_booking in
  option_map id (select_assigned_to 2 (auth_id Sample.ana) (appointments db))
  = Some 2
  /\ ~ slot_taken 7 2 Sample.march1 Sample.ten (appointments db)
  /\ conflicts 7 Sample.march1 Sample.ten 2 (appointments db) = []
  /\ update_schedule 2 Sample.march1 Sample.ten None (appointments db)
     = inl ER_DUP_ENTRY
  /\ scheduleAppointment Sample.ana 2 Sample.march1 Sample.ten None alone db
     = (SlotConflict, db).
Proof.
  cbv zeta. split; [reflexivity|]. split; [|repeat split].
  intros (other & Hin & Hid & _ & Hst & _).
  simpl in Hin. destruct Hin as [<-|[<-|[]]]; [now apply Hst|now apply Hid].
Qed.

(* ===================================================================== *)
(** * State machine: what the transitions check                           *)
(* ===================================================================== *)

Lemma primary_key_select (tbl : list Appointment) (a : Appointment) :
  primary_key tbl -> In a tbl -> select_by_id (id a) tbl = Some a.
Proof.
  intros Hpk Ha. destruct (select_by_id (id a) tbl) as [b|] eqn:E.
  - apply select_by_id_Some in E. destruct E as (Hb & E).
    f_equal. now apply (primary_key_unique tbl).
  - exfalso. rewrite select_by_id_None in E. now apply (E a).
Qed.

Lemma primary_key_select_assigned (tbl : list Appointment) (a : Appointment)
    (uid : Z) :
  primary_key tbl -> In a tbl -> assigned_agent_id a = Some uid ->
  select_assigned_to (id a) uid tbl = Some a.
Proof.
  intros Hpk Ha Hown. destruct (select_assigned_to (id a) uid tbl) as [b|] eqn:E.
  - apply select_assigned_to_Some in E. destruct E as (Hb & E & _).
    f_equal. now apply (primary_key_unique tbl).
  - exfalso. rewrite select_assigned_to_None in E. now apply (E a).
Qed.

Lemma cancel_select_Some (user : AuthUser) (id0 : Z) (tbl : list Appointment)
    (a : Appointment) :
  cancel_select user id0 tbl = Some a ->
  In a tbl /\ id a = id0
  /\ (auth_role user = agent -> assigned_agent_id a = Some (auth_id user)).
Proof.
  unfold cancel_select. destruct (auth_role user); intros H.
  - apply select_assigned_to_Some in H. tauto.
  - apply select_by_id_Some in H. split; [tauto|]. split; [tauto|discriminate].
Qed.

Lemma cancel_select_found (user : AuthUser) (tbl : list Appointment)
    (a : Appointment) :
  primary_key tbl -> In a tbl ->
  (auth_role user = agent -> assigned_agent_id a = Some (auth_id user)) ->
  cancel_select user (id a) tbl = Some a.
Proof.
  intros Hpk Ha Hown. unfold cancel_select.
  destruct (auth_role user); [|now apply primary_key_select].
  apply primary_key_select_assigned; auto.
Qed.

(** What the cancel route answers once its [SELECT] found the row: the
    [UPDATE] goes through on a row that is cancelled already, and is refused
    on any other. *)
Lemma cancel_of_found (user : AuthUser) (reason : option string) (db : Db)
    (a : Appointment) :
  primary_key (appointments db) -> In a (appointments db) ->
  (auth_role user = agent -> assigned_agent_id a = Some (auth_id user)) ->
  cancelAppointment user (id a) reason db
  = if status_eqb (status a) cancelled
    then (json 200 "Appointment cancelled",
          with_appointments
            (map (fun x => if id x =? id a
                           then set_cancelled (or_default reason "No reason provided") x
                           else x)
               (appointments db))
            db)
    else (json 500 "Failed to cancel appointment", db).
Proof.
  intros Hpk Ha Hown.
  pose proof (cancel_select_found user _ a Hpk Ha Hown) as Hfound.
  unfold cancelAppointment. rewrite Hfound.
  rewrite (update_cancel _ _ _ a (primary_key_select _ _ Hpk Ha)).
  now destruct (status_eqb (status a) cancelled).
Qed.

(** C3, as the code has it.  [cancelAppointment] has no status check and no
    reply for a transition that is not allowed:
    (a) it succeeds only when the appointment exists and, for an agent, is
        assigned to that agent;
    (b) when the appointment does not exist, or the actor is an agent and
        the appointment is not assigned to that agent, the reply is 404 and
        nothing is written;
    (c) an appointment that is cancelled already (and, for an agent, is
        assigned to that agent) is cancelled again with a 200: it stays
        cancelled and the reason is appended to its notes. *)
Theorem cancel_checks_no_status :
  forall user id0 reason db,
    primary_key (appointments db) ->
    (success (fst (cancelAppointment user id0 reason db)) = true ->
       exists a,
         In a (appointments db) /\ id a = id0
         /\ (auth_role user = agent -> assigned_agent_id a = Some (auth_id user)))
    /\ ((forall a,
            In a (appointments db) -> id a = id0 ->
            auth_role user = agent /\ assigned_agent_id a <> Some (auth_id user)) ->
        cancelAppointment user id0 reason db = (json 404 "Appointment not found", db))
    /\ (forall a,
          In a (appointments db) -> id a = id0 ->
          (auth_role user = agent -> assigned_agent_id a = Some (auth_id user)) ->
          status a = cancelled ->
          fst (cancelAppointment user id0 reason db) = json 200 "Appointment cancelled"
          /\ exists a',
              select_by_id id0 (appointments (snd (cancelAppointment user id0 reason db)))
              = Some a'
              /\ status a' = cancelled
              /\ agent_notes a'
                 = Some (COALESCE (agent_notes a) "" ++ nl ++ "Cancelled: "
                         ++ or_default reason "No reason provided")%string).
Proof.
  intros user id0 reason db Hpk. split; [|split].
  - unfold cancelAppointment.
    destruct (cancel_select user id0 (appointments db)) as [a|] eqn:E;
      [|discriminate].
    intros _. exists a. now apply cancel_select_Some.
  - intros Hnone. unfold cancelAppointment.
    destruct (cancel_select user id0 (appointments db)) as [b|] eqn:E;
      [|reflexivity].
    apply cancel_select_Some in E. destruct E as (Hb & Hid & Hown).
    destruct (Hnone b Hb Hid) as [Hagent Hno]. now apply Hown in Hagent.
  - intros a Ha Hid Hown Hcancelled. subst id0.
    rewrite (cancel_of_found user reason db a Hpk Ha Hown).
    apply status_eqb_eq in Hcancelled. rewrite Hcancelled. simpl.
    split; [reflexivity|].
    eexists. split.
    + unfold select_by_id. rewrite find_map_stable.
      * fold (select_by_id (id a) (appointments db)).
        rewrite (primary_key_select _ _ Hpk Ha). simpl.
        now rewrite Z.eqb_refl.
      * intros x. now destruct (id x =? id a) eqn:E.
    + split; reflexivity.
Qed.

Lemma cancel_checks_no_status_witness :
  (exists a,
      In a (appointments Sample.cancelled_booking) /\ id a = 1
      /\ assigned_agent_id a = Some 5)
  /\ cancelAppointment Sample.ben 1 None Sample.cancelled_booking
     = (json 404 "Appointment not found", Sample.cancelled_booking)
  /\ cancelAppointment Sample.root 4 None Sample.cancelled_booking
     = (json 404 "Appointment not found", Sample.cancelled_booking)
  /\ fst (cancelAppointment Sample.ana 1 (Some "again") Sample.cancelled_booking)
     = json 200 "Appointment cancelled"
  /\ fst (cancelAppointment Sample.root 1 (Some "again") Sample.cancelled_once)
     = json 200 "Appointment cancelled".
Proof.
  assert (Hpk : primary_key (appointments Sample.cancelled_booking))
    by primary_key_by_computation.
  assert (Hpk1 : primary_key (appointments Sample.cancelled_once))
    by primary_key_by_computation.
  split; [|split; [|split; [|split]]].
  - destruct (proj1 (cancel_checks_no_status Sample.ana 1 (Some "again")
                       Sample.cancelled_booking Hpk) eq_refl)
      as (a & Ha & Hid & Hown).
    exists a. split; [exact Ha|]. split; [exact Hid|]. now apply Hown.
  - apply (proj1 (proj2 (cancel_checks_no_status Sample.ben 1 None
                           Sample.cancelled_booking Hpk))).
    intros a [<-|[<-|[]]] E; [|discriminate E].
    split; [reflexivity|discriminate].
  - apply (proj1 (proj2 (cancel_checks_no_status Sample.root 4 None
                           Sample.cancelled_booking Hpk))).
    intros a [<-|[<-|[]]] E; discriminate E.
  - refine (proj1 (proj2 (proj2 (cancel_checks_no_status Sample.ana 1
                                   (Some "again") Sample.cancelled_booking Hpk))
                     _ (or_introl eq_refl) eq_refl _ eq_refl)).
    reflexivity.
  - refine (proj1 (proj2 (proj2 (cancel_checks_no_status Sample.root 1
                                   (Some "again") Sample.cancelled_once Hpk1))
                     _ (or_introl eq_refl) eq_refl _ eq_refl)).
    intros H. discriminate H.
Defined.

(** C3 as stated fails on the code: the admin cancels appointment 1 a second
    time; the request succeeds although the appointment is already
    cancelled, and the row is rewritten (a second reason is appended). *)
Lemma cancelling_cancelled_succeeds :
  ~ (forall a,
        select_by_id 1 (appointments Sample.cancelled_once) = Some a ->
        success (fst (cancelAppointment Sample.root 1 (Some "again")
                        Sample.cancelled_once)) = true ->
        status a = pending \/ status a = assigned \/ status a = scheduled)
  /\ fst (cancelAppointment Sample.root 1 (Some "again") Sample.cancelled_once)
     = json 200 "Appointment cancelled"
  /\ snd (cancelAppointment Sample.root 1 (Some "again") Sample.cancelled_once)
     <> Sample.cancelled_once.
Proof.
  split; [|split; [reflexivity|]].
  - intros H. destruct (H _ eq_refl eq_refl) as [E|[E|E]]; discriminate E.
  - intros E. apply (f_equal (fun db => map agent_notes (appointments db))) in E.
    discriminate E.
Qed.

(** C4, as the code has it.  For an admin and a well-formed [agentId],
    [assignAgent] looks at no status: it answers 404 when the appointment
    does not exist, 400 "Agent not found or inactive" when no active user
    with the agent role has that id, and otherwise succeeds, whatever the
    appointment's status, setting [assigned_agent_id], [assigned_at] to now
    and [status] to [assigned]. *)
Theorem assign_checks_no_status :
  forall user now id0 agentId db,
    auth_role user = admin -> 1 <= agentId ->
    let eligible :=
      exists u, In u (users db) /\ user_id u = agentId
                /\ role u = agent /\ is_active u = true in
    (select_by_id id0 (appointments db) = None ->
       assignAgent user now id0 agentId db = (json 404 "Appointment not found", db))
    /\ (forall a,
          select_by_id id0 (appointments db) = Some a -> ~ eligible ->
          assignAgent user now id0 agentId db
          = (json 400 "Agent not found or inactive", db))
    /\ (forall a,
          select_by_id id0 (appointments db) = Some a -> eligible ->
          fst (assignAgent user now id0 agentId db)
          = json 200 "Agent assigned successfully"
          /\ exists a',
              select_by_id id0
                (appointments (snd (assignAgent user now id0 agentId db)))
              = Some a'
              /\ assigned_agent_id a' = Some agentId
              /\ assigned_at a' = Some now
              /\ status a' = assigned).
Proof.
  intros user now id0 agentId db Hadmin Hid eligible.
  unfold assignAgent. rewrite Hadmin. simpl.
  assert (Hv : (agentId <? 1) = false) by (apply Z.ltb_ge; lia). rewrite Hv.
  set (f := fun u : User => _).
  assert (Hf : forall u, f u = true <->
                 user_id u = agentId /\ role u = agent /\ is_active u = true).
  { intros u. unfold f. rewrite !andb_true_iff, Z.eqb_eq, role_eqb_eq. tauto. }
  split; [|split].
  - intros ->. reflexivity.
  - intros a -> Hnone.
    destruct (filter f (users db)) as [|u us] eqn:E; [reflexivity|].
    exfalso. apply Hnone. exists u.
    assert (Hu : In u (filter f (users db))) by (rewrite E; now left).
    apply filter_In in Hu. destruct Hu as (Hu & Hfu). apply Hf in Hfu. tauto.
  - intros a Hsel (u & Hu & Hfu). rewrite Hsel.
    destruct (filter f (users db)) as [|v vs] eqn:E.
    + exfalso.
      assert (Hin : In u (filter f (users db)))
        by (apply filter_In; split; [auto|apply Hf; tauto]).
      rewrite E in Hin. destruct Hin.
    + trigger_idle. simpl. split; [reflexivity|]. eexists. split.
      * apply (select_after_update id0 (set_assigned agentId now) (appointments db));
          [reflexivity|exact Hsel|].
        now trigger_idle.
      * repeat split.
Qed.

Lemma assign_checks_no_status_witness :
  fst (assignAgent Sample.root 9000 1 6 Sample.completed_by_ana)
  = json 200 "Agent assigned successfully"
  /\ assignAgent Sample.root 9000 1 8 Sample.completed_by_ana
     = (json 400 "Agent not found or inactive", Sample.completed_by_ana)
  /\ assignAgent Sample.root 9000 4 6 Sample.completed_by_ana
     = (json 404 "Appointment not found", Sample.completed_by_ana).
Proof.
  split; [|split].
  - refine (proj1 (proj2 (proj2 (assign_checks_no_status Sample.root 9000 1 6
              Sample.completed_by_ana eq_refl _)) _ eq_refl _)); [lia|].
    eexists. split; [right; right; left; reflexivity|]. repeat split.
  - refine (proj1 (proj2 (assign_checks_no_status Sample.root 9000 1 8
              Sample.completed_by_ana eq_refl _)) _ eq_refl _); [lia|].
    intros (u & Hu & Hid & _ & Hact). simpl in Hu.
    destruct Hu as [<-|[<-|[<-|[<-|[]]]]]; discriminate.
  - refine (proj1 (assign_checks_no_status Sample.root 9000 4 6
              Sample.completed_by_ana eq_refl _) eq_refl). lia.
Defined.

(** C4 as stated fails on the code: appointment 1 is completed, and the
    admin assigns it to Ben; the request succeeds and the appointment is
    back in status [assigned]. *)
Lemma assigning_completed_succeeds :
  ~ (forall a,
        select_by_id 1 (appointments Sample.completed_by_ana) = Some a ->
        success (fst (assignAgent Sample.root 9000 1 6 Sample.completed_by_ana))
        = true ->
        status a = pending)
  /\ map status
       (appointments (snd (assignAgent Sample.root 9000 1 6 Sample.completed_by_ana)))
     = [assigned].
Proof.
  split; [|reflexivity].
  intros H. discriminate (H _ eq_refl eq_refl).
Qed.

(** The strings the [outcome] column stores as they are. *)
Lemma outcome_of_string_enum (strict : bool) (o : string) :
  In o ["interested"; "offer_made"; "not_interested"; "no_show"] ->
  exists oc, outcome_of_string strict o = inr oc /\ oc <> enum_error.
Proof.
  simpl. intros [<-|[<-|[<-|[<-|[]]]]]; eexists; (split; [reflexivity|discriminate]).
Qed.

Lemma outcome_isIn_accepts (o : string) :
  In o outcome_isIn -> existsb (String.eqb o) outcome_isIn = true.
Proof.
  intros H. apply existsb_exists. exists o. split; [exact H|apply String.eqb_refl].
Qed.

(** C5, as the code has it.  [completeAppointment] looks at the owner and at
    no status: it succeeds only for an appointment assigned to the caller;
    for such an appointment, in any status, and an outcome of the column's
    enumeration it succeeds and completes the row; an appointment that is
    not assigned to the caller (a pending one never assigned, for one) is
    answered 404 and nothing is written. *)
Theorem complete_checks_owner_only :
  forall env user now id0 o onotes anotes db,
    (success (fst (completeAppointment env user now id0 o onotes anotes db)) = true ->
       exists a, In a (appointments db) /\ id a = id0
                 /\ assigned_agent_id a = Some (auth_id user))
    /\ (primary_key (appointments db) ->
        forall a,
          In a (appointments db) -> id a = id0 ->
          assigned_agent_id a = Some (auth_id user) ->
          In o ["interested"; "offer_made"; "not_interested"; "no_show"] ->
          fst (completeAppointment env user now id0 o onotes anotes db)
          = json 200 "Viewing marked as completed"
          /\ exists a',
              select_by_id id0
                (appointments
                   (snd (completeAppointment env user now id0 o onotes anotes db)))
              = Some a'
              /\ status a' = completed
              /\ completed_at a' = Some now
              /\ exists oc, outcome_of_string (strict_sql_mode env) o = inr oc
                            /\ outcome a' = Some oc)
    /\ ((forall a, In a (appointments db) -> id a = id0 ->
                   assigned_agent_id a <> Some (auth_id user)) ->
        In o outcome_isIn ->
        completeAppointment env user now id0 o onotes anotes db
        = (json 404 "Appointment not found or not assigned to you", db)).
Proof.
  intros env user now id0 o onotes anotes db. split; [|split].
  - unfold completeAppointment.
    destruct (negb _); [discriminate|].
    destruct (select_assigned_to _ _ _) as [a|] eqn:E; [|discriminate].
    intros _. exists a. now apply select_assigned_to_Some in E.
  - intros Hpk a Ha Hid Hown Ho. subst id0.
    unfold completeAppointment.
    assert (Hv : existsb (String.eqb o) outcome_isIn = true).
    { apply outcome_isIn_accepts. simpl in Ho |- *. tauto. }
    rewrite Hv. simpl negb. cbv iota.
    rewrite (primary_key_select_assigned _ _ _ Hpk Ha Hown).
    unfold update_complete. rewrite (primary_key_select _ _ Hpk Ha).
    destruct (outcome_of_string_enum (strict_sql_mode env) o Ho) as (oc & -> & _).
    trigger_idle. simpl. split; [reflexivity|].
    eexists. split.
    + apply (select_after_update (id a) (set_completed oc (or_null onotes) anotes now)
               (appointments db));
        [reflexivity|now apply primary_key_select|].
      now trigger_idle.
    + simpl. repeat split. exists oc. split; reflexivity.
  - intros Hnone Ho. unfold completeAppointment.
    rewrite (outcome_isIn_accepts o Ho). simpl negb. cbv iota.
    apply select_assigned_to_None in Hnone. now rewrite Hnone.
Qed.

Lemma complete_checks_owner_only_witness :
  (exists a, In a (appointments Sample.assigned_to_ana) /\ id a = 1
             /\ assigned_agent_id a = Some 5)
  /\ fst (completeAppointment Sample.env Sample.ana 7200 1 "offer_made" None None
            Sample.assigned_to_ana)
     = json 200 "Viewing marked as completed"
  /\ completeAppointment Sample.env Sample.ana 7200 1 "offer_made" None None
       Sample.requested
     = (json 404 "Appointment not found or not assigned to you", Sample.requested).
Proof.
  split; [|split].
  - exact (proj1 (complete_checks_owner_only Sample.env Sample.ana 7200 1
                    "offer_made" None None Sample.assigned_to_ana) eq_refl).
  - refine (proj1 (proj1 (proj2 (complete_checks_owner_only Sample.env Sample.ana
              7200 1 "offer_made" None None Sample.assigned_to_ana)) _
              _ (or_introl eq_refl) eq_refl eq_refl _)).
    + primary_key_by_computation.
    + simpl. auto.
  - refine (proj2 (proj2 (complete_checks_owner_only Sample.env Sample.ana 7200 1
              "offer_made" None None Sample.requested)) _ _).
    + intros a [<-|[]] _. discriminate.
    + simpl. auto.
Defined.

(** C5 as stated fails on the code: appointment 1 is [assigned], not
    [scheduled], and Ana, its agent, completes it; the request succeeds. *)
Lemma completing_assigned_succeeds :
  ~ (forall a,
        select_by_id 1 (appointments Sample.assigned_to_ana) = Some a ->
        success (fst (completeAppointment Sample.env Sample.ana 7200 1
                        "offer_made" None None Sample.assigned_to_ana)) = true ->
        status a = scheduled)
  /\ map status
       (appointments
          (snd (completeAppointment Sample.env Sample.ana 7200 1 "offer_made"
                  None None Sample.assigned_to_ana)))
     = [completed].
Proof.
  split; [|reflexivity].
  intros H. discriminate (H _ eq_refl eq_refl).
Qed.

(* ===================================================================== *)
(** * The outcome column                                                  *)
(* ===================================================================== *)

(** C9.  The validator of the complete route admits [needs_followup], the
    [outcome] column does not list it.  Completing the scheduled
    appointment 1 with that outcome fails with a 500 and leaves [outcome]
    [NULL] on a server in strict SQL mode, and stores the empty enumeration
    member on a server that is not; for no SQL mode is the value kept. *)
Theorem needs_followup_is_not_persisted :
  existsb (String.eqb "needs_followup") outcome_isIn = true
  /\ completeAppointment Sample.env Sample.ana 7200 1 "needs_followup" None None
       Sample.scheduled_by_ana
     = (json 500 "Failed to complete viewing", Sample.scheduled_by_ana)
  /\ map outcome (appointments Sample.scheduled_by_ana) = [None]
  /\ fst (completeAppointment Sample.lax_env Sample.ana 7200 1 "needs_followup"
            None None Sample.scheduled_by_ana)
     = json 200 "Viewing marked as completed"
  /\ map outcome
       (appointments
          (snd (completeAppointment Sample.lax_env Sample.ana 7200 1
                  "needs_followup" None None Sample.scheduled_by_ana)))
     = [Some enum_error]
  /\ outcome_of_string true "needs_followup" = inl WARN_DATA_TRUNCATED
  /\ outcome_of_string false "needs_followup" = inr enum_error.
Proof. repeat split. Qed.

(** In strict SQL mode the refusal does not depend on the appointment: the
    completion of any appointment of the caller with [needs_followup] ends
    in a 500 and writes nothing. *)
Remark needs_followup_refused_in_strict_mode (env : Env) (user : AuthUser)
    (now id0 : Z) (onotes anotes : option string) (db : Db) (a : Appointment) :
  strict_sql_mode env = true ->
  select_assigned_to id0 (auth_id user) (appointments db) = Some a ->
  completeAppointment env user now id0 "needs_followup" onotes anotes db
  = (json 500 "Failed to complete viewing", db).
Proof.
  intros Hstrict Hsel. unfold completeAppointment. simpl negb. cbv iota.
  rewrite Hsel. unfold update_complete.
  destruct (select_by_id id0 (appointments db)) as [b|] eqn:E.
  - rewrite Hstrict. reflexivity.
  - exfalso. apply select_assigned_to_Some in Hsel.
    rewrite select_by_id_None in E. destruct Hsel as (Ha & Hid & _).
    now apply (E a).
Qed.

(** A column that the [SET] clause leaves alone reads the same before and
    after [UPDATE ... WHERE id = id0]. *)
Lemma map_col_after_update {B : Type} (col : Appointment -> B) (id0 : Z)
    (set : Appointment -> Appointment) (tbl tbl' : list Appointment) :
  (forall x, col (set x) = col x) ->
  update_appointment id0 set tbl = inr tbl' ->
  map col tbl' = map col tbl.
Proof.
  intros Hset Hupd. apply update_appointment_rows in Hupd. subst tbl'.
  rewrite map_map. apply map_ext. intros a.
  destruct (id a =? id0); [apply Hset|reflexivity].
Qed.

(** The case analysis on the outcome of the [UPDATE] of a handler. *)
Ltac by_update :=
  match goal with
  | |- context [update_appointment ?i ?f ?t] =>
      let T := fresh "tbl'" in
      destruct (update_appointment i f t) as [[| | |]|T] eqn:Eupd
  end.

(** What the requests do to a column that only [written] requests write:
    the other requests keep it row by row, and a creation appends the
    column's value in the new row. *)
Lemma serve_keeps_col {B : Type} (col : Appointment -> B) (env : Env)
    (r : Request) (db : Db) :
  (forall u n x, col (set_assigned u n x) = col x) ->
  (forall d t s x, col (set_scheduled d t s x) = col x) ->
  (forall o s s' n x, col (set_completed o s s' n x) = col x) ->
  (forall s x, col (set_cancelled s x) = col x) ->
  map col (appointments (snd (serve env r db))) = map col (appointments db)
  \/ exists row,
       appointments (snd (serve env r db)) = appointments db ++ [row]
       /\ id row = auto_increment db
       /\ auto_increment (snd (serve env r db)) = auto_increment db + 1.
Proof.
  intros Ha Hs Hc Hx.
  destruct r as [now ip body|user now id0 agentId|user id0 d t notes
                |user now id0 o onotes anotes|user id0 reason]; simpl.
  - unfold createAppointment.
    destruct (_ <? _); [now left|].
    destruct (recaptcha_gate _ _); [now left|].
    destruct (filter _ (properties db)); [now left|].
    destruct (negb _); [now left|].
    destruct (filter _ (appointments db)); [|now left].
    right. simpl. eexists. repeat split.
  - left. unfold assignAgent.
    destruct (negb _); [reflexivity|].
    destruct (_ <? _); [reflexivity|].
    destruct (select_by_id _ _); [|reflexivity].
    destruct (filter _ _); [reflexivity|].
    by_update; try reflexivity.
    simpl. now apply (map_col_after_update col _ _ _ _ (Ha _ _) Eupd).
  - left. unfold scheduleAppointment, alone.
    destruct (select_assigned_to _ _ _); [|reflexivity].
    destruct (conflicts _ _ _ _ _); [|reflexivity].
    unfold update_schedule.
    destruct (select_by_id _ _); [|reflexivity].
    destruct (unique_property_schedule_hit _ _ _ _ _); [reflexivity|].
    by_update; try reflexivity.
    simpl. now apply (map_col_after_update col _ _ _ _ (Hs _ _ _) Eupd).
  - left. unfold completeAppointment.
    destruct (negb _); [reflexivity|].
    destruct (select_assigned_to _ _ _); [|reflexivity].
    unfold update_complete.
    destruct (select_by_id _ _); [|reflexivity].
    destruct (outcome_of_string _ _); [reflexivity|].
    by_update; try reflexivity.
    simpl. now apply (map_col_after_update col _ _ _ _ (Hc _ _ _ _) Eupd).
  - left. unfold cancelAppointment.
    destruct (cancel_select _ _ _); [|reflexivity].
    by_update; try reflexivity.
    simpl. now apply (map_col_after_update col _ _ _ _ (Hx _) Eupd).
Qed.

(** Every request keeps the primary key. *)
Lemma serve_well_keyed (env : Env) (r : Request) (db : Db) :
  well_keyed db -> well_keyed (snd (serve env r db)).
Proof.
  intros (Hpk & Hlt). unfold well_keyed, primary_key.
  assert (Hauto : auto_increment (snd (serve env r db)) = auto_increment db
                  \/ auto_increment (snd (serve env r db)) = auto_increment db + 1).
  { destruct r; simpl.
    - unfold createAppointment.
      destruct (_ <? _); [now left|].
      destruct (recaptcha_gate _ _); [now left|].
      destruct (filter _ (properties db)); [now left|].
      destruct (negb _); [now left|].
      destruct (filter _ (appointments db)); [now right|now left].
    - left. unfold assignAgent.
      destruct (negb _); [reflexivity|].
      destruct (_ <? _); [reflexivity|].
      destruct (select_by_id _ _); [|reflexivity].
      destruct (filter _ _); [reflexivity|].
      now destruct (update_appointment _ _ _).
    - left. unfold scheduleAppointment, alone.
      destruct (select_assigned_to _ _ _); [|reflexivity].
      destruct (conflicts _ _ _ _ _); [|reflexivity].
      destruct (update_schedule _ _ _ _ _) as [[| | |]|]; reflexivity.
    - left. unfold completeAppointment.
      destruct (negb _); [reflexivity|].
      destruct (select_assigned_to _ _ _); [|reflexivity].
      now destruct (update_complete _ _ _ _ _ _ _).
    - left. unfold cancelAppointment.
      destruct (cancel_select _ _ _); [|reflexivity].
      now destruct (update_appointment _ _ _). }
  destruct (serve_keeps_col id env r db) as [E|(row & E & Hid & Hnext)];
    try reflexivity.
  - rewrite E. split; [exact Hpk|].
    revert Hlt. apply Forall_impl. intros i Hi. lia.
  - rewrite E, Hnext, map_app. simpl. split.
    + apply (Permutation_NoDup (Permutation_cons_append _ _)).
      constructor; [|exact Hpk].
      intros Hin. apply (proj1 (Forall_forall _ _) Hlt) in Hin. lia.
    + apply Forall_app. split.
      * revert Hlt. apply Forall_impl. intros i Hi. lia.
      * constructor; [lia|constructor].
Qed.

Lemma run_well_keyed (env : Env) (rs : list Request) (db : Db) :
  well_keyed db -> well_keyed (run env rs db).
Proof.
  unfold run. revert db. induction rs as [|r rs IH]; intros db H; simpl; [exact H|].
  apply IH. now apply serve_well_keyed.
Qed.

(** The first half of C9 holds: no request but the completion writes
    [outcome]; a created row starts with [NULL]. *)
Remark outcome_written_at_completion_only (env : Env) (r : Request) (db : Db) :
  match r with
  | PUT_complete _ _ _ _ _ _ => True
  | _ =>
      map outcome (appointments (snd (serve env r db)))
      = map outcome (appointments db)
      \/ exists row,
           appointments (snd (serve env r db)) = appointments db ++ [row]
           /\ outcome row = None
  end.
Proof.
  destruct r as [now ip body|user now id0 agentId|user id0 d t notes| |user id0 reason];
    simpl; auto.
  - unfold createAppointment.
    destruct (_ <? _); [now left|].
    destruct (recaptcha_gate _ _); [now left|].
    destruct (filter _ (properties db)); [now left|].
    destruct (negb _); [now left|].
    destruct (filter _ (appointments db)); [|now left].
    right. simpl. eexists. split; reflexivity.
  - left. unfold assignAgent.
    destruct (negb _); [reflexivity|].
    destruct (_ <? _); [reflexivity|].
    destruct (select_by_id _ _); [|reflexivity].
    destruct (filter _ _); [reflexivity|].
    by_update; try reflexivity.
    simpl. eapply (map_col_after_update outcome); [|exact Eupd]. reflexivity.
  - left. unfold scheduleAppointment, alone.
    destruct (select_assigned_to _ _ _); [|reflexivity].
    destruct (conflicts _ _ _ _ _); [|reflexivity].
    unfold update_schedule.
    destruct (select_by_id _ _); [|reflexivity].
    destruct (unique_property_schedule_hit _ _ _ _ _); [reflexivity|].
    by_update; try reflexivity.
    simpl. eapply (map_col_after_update outcome); [|exact Eupd]. reflexivity.
  - left. unfold cancelAppointment.
    destruct (cancel_select _ _ _); [|reflexivity].
    by_update; try reflexivity.
    simpl. eapply (map_col_after_update outcome); [|exact Eupd]. reflexivity.
Qed.

(* ===================================================================== *)
(** * Creation: duplicate guard and anti-abuse gate                       *)
(* ===================================================================== *)

Ltac reply_differs := unfold DuplicateRequest, SuspiciousActivity,
  RecaptchaFailed, ValidationFailed, json; discriminate.

(** What [createAppointment] does once the anti-abuse gate let the request
    through to an existing, available property. *)
Lemma create_after_gate (env : Env) (now : Z) (ip : string) (body : CreateBody)
    (db : Db) (score : option Q) :
  1 <= propertyId body ->
  recaptcha_gate env (recaptchaToken body) = inr score ->
  (exists p, In p (properties db) /\ prop_id p = propertyId body) ->
  (forall p, In p (properties db) -> prop_id p = propertyId body ->
             prop_status p = available) ->
  createAppointment env now ip body db
  = match filter (fun a => (property_id a =? propertyId body)
                           && (customer_email a =? customerEmail body)%string
                           && (created_at a >? now - 24 * 3600))
            (appointments db) with
    | _ :: _ => (DuplicateRequest, db)
    | [] =>
        (mkReply 201
           "Your viewing request has been submitted. We will contact you within 24 hours."
           (Some (auto_increment db)),
         snd (insert_appointment
                (mkAppointment 0 (propertyId body) (customerName body)
                   (customerEmail body) (customerPhone body)
                   (customerIntent body) (or_null (customerMessage body))
                   0 None None None None pending None None None None None
                   score ip now)
                db))
    end.
Proof.
  intros Hid Hgate (p & Hp & Hpid) Havail.
  unfold createAppointment.
  assert (Hv : (propertyId body <? 1) = false) by (apply Z.ltb_ge; lia).
  rewrite Hv, Hgate.
  destruct (filter _ (properties db)) as [|q qs] eqn:E.
  - exfalso.
    assert (Hin : In p (filter (fun p => prop_id p =? propertyId body) (properties db)))
      by (apply filter_In; split; [auto|now apply Z.eqb_eq]).
    rewrite E in Hin. destruct Hin.
  - assert (Hq : In q (filter (fun p => prop_id p =? propertyId body) (properties db)))
      by (rewrite E; now left).
    apply filter_In in Hq. destruct Hq as (Hq & Hqid). apply Z.eqb_eq in Hqid.
    rewrite (Havail q Hq Hqid). simpl.
    destruct (filter _ (appointments db)); reflexivity.
Qed.

(** C6, as the code has it.  For a request that passed validation and the
    anti-abuse gate, to an existing and available property,
    [createAppointment] answers [DuplicateRequest] exactly when an
    appointment of the same property and e-mail, of any status, was created
    strictly less than 24 hours before; when every such appointment is 24
    hours old or more (25 hours, say) the request is accepted. *)
Theorem duplicate_guard_counts_every_status :
  forall env now ip body db score,
    1 <= propertyId body ->
    recaptcha_gate env (recaptchaToken body) = inr score ->
    (exists p, In p (properties db) /\ prop_id p = propertyId body) ->
    (forall p, In p (properties db) -> prop_id p = propertyId body ->
               prop_status p = available) ->
    (fst (createAppointment env now ip body db) = DuplicateRequest
     <-> exists a, In a (appointments db)
                   /\ property_id a = propertyId body
                   /\ customer_email a = customerEmail body
                   /\ now - 24 * 3600 < created_at a)
    /\ ((forall a, In a (appointments db) ->
                   property_id a = propertyId body ->
                   customer_email a = customerEmail body ->
                   created_at a + 24 * 3600 <= now) ->
        http_status (fst (createAppointment env now ip body db)) = 201).
Proof.
  intros env now ip body db score Hid Hgate Hex Havail.
  rewrite (create_after_gate env now ip body db score Hid Hgate Hex Havail).
  set (f := fun a : Appointment => _).
  assert (Hf : forall a, f a = true <->
                 property_id a = propertyId body
                 /\ customer_email a = customerEmail body
                 /\ now - 24 * 3600 < created_at a).
  { intros a. unfold f.
    rewrite !andb_true_iff, Z.eqb_eq, String.eqb_eq, Z.gtb_ltb, Z.ltb_lt. tauto. }
  destruct (filter f (appointments db)) as [|x xs] eqn:E.
  - assert (Hnone : forall a, In a (appointments db) -> f a = false).
    { intros a Ha. destruct (f a) eqn:Efa; [|reflexivity].
      assert (Hin : In a (filter f (appointments db))) by (apply filter_In; auto).
      rewrite E in Hin. destruct Hin. }
    split; [split|].
    + simpl. intros H. reply_differs.
    + intros (a & Ha & H). apply Hf in H. rewrite (Hnone a Ha) in H. discriminate H.
    + reflexivity.
  - assert (Hx : In x (filter f (appointments db))) by (rewrite E; now left).
    apply filter_In in Hx. destruct Hx as (Hx & Hfx). apply Hf in Hfx.
    split; [split|].
    + intros _. exists x. tauto.
    + reflexivity.
    + intros Hold. exfalso.
      destruct Hfx as (Hp & He & Ht). specialize (Hold x Hx Hp He). lia.
Qed.

Lemma duplicate_guard_counts_every_status_witness :
  fst (createAppointment Sample.env (1 * Sample.hour) "10.0.0.1" Sample.jane
         Sample.cancelled_once) = DuplicateRequest
  /\ http_status
       (fst (createAppointment Sample.env (25 * Sample.hour) "10.0.0.1"
               Sample.jane Sample.cancelled_once)) = 201.
Proof.
  assert (Hex : exists p, In p (properties Sample.cancelled_once)
                          /\ prop_id p = propertyId Sample.jane)
    by (eexists; split; [left; reflexivity|reflexivity]).
  assert (Havail : forall p, In p (properties Sample.cancelled_once) ->
                     prop_id p = propertyId Sample.jane -> prop_status p = available).
  { intros p [<-|[<-|[]]] H; [reflexivity|discriminate H]. }
  split.
  - apply (proj1 (duplicate_guard_counts_every_status Sample.env
                    (1 * Sample.hour) "10.0.0.1" Sample.jane
                    Sample.cancelled_once None ltac:(simpl; lia) eq_refl Hex Havail)).
    eexists. split; [left; reflexivity|].
    repeat split.
  - apply (proj2 (duplicate_guard_counts_every_status Sample.env
                    (25 * Sample.hour) "10.0.0.1" Sample.jane
                    Sample.cancelled_once None ltac:(simpl; lia) eq_refl Hex Havail)).
    intros a [<-|[]] _ _. simpl. unfold Sample.hour. lia.
Defined.

(** C6 as stated fails on the code: Jane's request for property 7 was
    cancelled; one hour after she made it she asks again and is answered
    [DuplicateRequest], although no non-cancelled appointment of hers
    exists. *)
Lemma cancelled_request_still_counts_as_duplicate :
  ~ (fst (createAppointment Sample.env (1 * Sample.hour) "10.0.0.1" Sample.jane
            Sample.cancelled_once) = DuplicateRequest
     <-> exists a, In a (appointments Sample.cancelled_once)
                   /\ status a <> cancelled
                   /\ property_id a = propertyId Sample.jane
                   /\ customer_email a = customerEmail Sample.jane
                   /\ 1 * Sample.hour - 24 * 3600 < created_at a).
Proof.
  intros [H _]. destruct (H eq_refl) as (a & Ha & Hstatus & _).
  destruct Ha as [<-|[]]. apply Hstatus. reflexivity.
Qed.

Lemma score_too_low_iff (score : option Q) :
  score_too_low score = true <-> exists s, score = Some s /\ (s < 3 # 10)%Q.
Proof.
  destruct score as [q|]; simpl.
  - rewrite Qltb_lt. split.
    + intros H. exists q. auto.
    + intros (s & E & H). injection E as ->. exact H.
  - split; [discriminate|]. intros (s & E & _). discriminate E.
Qed.

(** The replies of [createAppointment] past the anti-abuse gate. *)
Lemma create_past_gate_not_suspicious (env : Env) (now : Z) (ip : string)
    (body : CreateBody) (db : Db) (score : option Q) :
  recaptcha_gate env (recaptchaToken body) = inr score ->
  fst (createAppointment env now ip body db) <> SuspiciousActivity
  /\ fst (createAppointment env now ip body db) <> RecaptchaFailed
  /\ (http_status (fst (createAppointment env now ip body db)) = 201 ->
      exists row,
        appointments (snd (createAppointment env now ip body db))
        = appointments db ++ [row]
        /\ recaptcha_score row = score).
Proof.
  intros Hgate. unfold createAppointment. rewrite Hgate.
  destruct (_ <? _); [simpl; repeat split; try reply_differs|].
  destruct (filter _ (properties db)); [simpl; repeat split; try reply_differs|].
  destruct (negb _); [simpl; repeat split; try reply_differs|].
  destruct (filter _ (appointments db)); simpl; repeat split; try reply_differs.
  intros _. eexists. split; reflexivity.
Qed.

(** C10.  Without a [recaptchaToken] (or with an empty one) the handler does
    not consult the verification service: its result is the same in every
    environment, it is never the suspicious-activity rejection nor the
    verification failure, and a created row stores a [NULL] score.  With a
    token whose verification succeeds, a validated request is answered with
    the suspicious-activity rejection exactly when the returned score is
    below 0.3. *)
Theorem recaptcha_gate_on_creation :
  forall env now ip body db,
    (truthy (recaptchaToken body) = false ->
       (forall env', createAppointment env' now ip body db
                     = createAppointment env now ip body db)
       /\ fst (createAppointment env now ip body db) <> SuspiciousActivity
       /\ fst (createAppointment env now ip body db) <> RecaptchaFailed
       /\ (http_status (fst (createAppointment env now ip body db)) = 201 ->
           exists row,
             appointments (snd (createAppointment env now ip body db))
             = appointments db ++ [row]
             /\ recaptcha_score row = None))
    /\ (forall token,
          recaptchaToken body = Some token -> token <> "" ->
          1 <= propertyId body ->
          rc_success (verifyRecaptcha env token) = true ->
          (fst (createAppointment env now ip body db) = SuspiciousActivity
           <-> exists s, rc_score (verifyRecaptcha env token) = Some s
                         /\ (s < 3 # 10)%Q)).
Proof.
  intros env now ip body db. split.
  - intros Hno.
    assert (Hgate : forall e, recaptcha_gate e (recaptchaToken body) = inr None).
    { intros e. unfold recaptcha_gate. now rewrite Hno. }
    split.
    + intros env'. unfold createAppointment. now rewrite !Hgate.
    + exact (create_past_gate_not_suspicious env now ip body db None (Hgate env)).
  - intros token Htok Hne Hid Hok.
    assert (Htruthy : truthy (recaptchaToken body) = true).
    { rewrite Htok. simpl. apply negb_true_iff. now apply String.eqb_neq. }
    assert (Hv : (propertyId body <? 1) = false) by (apply Z.ltb_ge; lia).
    rewrite <- score_too_low_iff.
    destruct (score_too_low (rc_score (verifyRecaptcha env token))) eqn:Elow.
    + split; [reflexivity|]. intros _.
      unfold createAppointment, recaptcha_gate.
      rewrite Hv, Htruthy, Htok. simpl COALESCE. now rewrite Hok, Elow.
    + split; [|discriminate]. intros H. exfalso.
      assert (Hgate : recaptcha_gate env (recaptchaToken body)
                      = inr (rc_score (verifyRecaptcha env token))).
      { unfold recaptcha_gate. rewrite Htruthy, Htok. simpl COALESCE.
        now rewrite Hok, Elow. }
      exact (proj1 (create_past_gate_not_suspicious env now ip body db _ Hgate) H).
Qed.

Lemma recaptcha_gate_on_creation_witness :
  fst (createAppointment Sample.checked_env 0 "10.0.0.1" Sample.jane Sample.db0)
  <> SuspiciousActivity
  /\ fst (createAppointment Sample.checked_env 0 "10.0.0.1"
            (Sample.with_token "bot" Sample.jane) Sample.db0)
     = SuspiciousActivity.
Proof.
  split.
  - exact (proj1 (proj2 (proj1 (recaptcha_gate_on_creation Sample.checked_env 0
                                  "10.0.0.1" Sample.jane Sample.db0) eq_refl))).
  - apply (proj2 (recaptcha_gate_on_creation Sample.checked_env 0 "10.0.0.1"
                    (Sample.with_token "bot" Sample.jane) Sample.db0)
             "bot" eq_refl).
    + discriminate.
    + simpl. lia.
    + reflexivity.
    + exists (1 # 10)%Q. split; reflexivity.
Defined.

(* ===================================================================== *)
(** * The admin list                                                      *)
(* ===================================================================== *)

(** The [CASE] expression of the admin list ranks the statuses as the
    status priority does. *)
Lemma status_case_before (s s' : Status) :
  status_case s < status_case s' <-> status_priority_before s s'.
Proof.
  split.
  - destruct s, s'; simpl; intros H; try lia; repeat constructor.
  - intros H. inversion H as [| |? Ho| |? Ho|? Ho]; subst; simpl; try lia;
      inversion Ho; simpl; lia.
Qed.

Lemma status_case_tied (s s' : Status) :
  status_case s = status_case s' <-> status_priority_tied s s'.
Proof.
  unfold status_priority_tied. split.
  - destruct s, s'; simpl; intros H; try lia;
      solve [now left | right; split; constructor].
  - intros [->|[Ho Ho']]; [reflexivity|].
    inversion Ho; inversion Ho'; reflexivity.
Qed.

Lemma order_by_leb_iff (a b : Appointment) :
  order_by_leb a b = true <-> admin_list_order a b.
Proof.
  unfold order_by_leb, admin_list_order.
  rewrite <- status_case_before, <- status_case_tied.
  destruct (Z.ltb_spec (status_case (status a)) (status_case (status b)));
    [split; [intros _; lia|reflexivity]|].
  destruct (Z.ltb_spec (status_case (status b)) (status_case (status a)));
    [split; [discriminate|lia]|].
  destruct (Z.ltb_spec (priority_number a) (priority_number b));
    [split; [intros _; lia|reflexivity]|].
  destruct (Z.ltb_spec (priority_number b) (priority_number a));
    [split; [discriminate|lia]|].
  rewrite Z.leb_le. lia.
Qed.

Lemma admin_list_order_trans (a b c : Appointment) :
  admin_list_order a b -> admin_list_order b c -> admin_list_order a c.
Proof.
  unfold admin_list_order.
  rewrite <- !status_case_before, <- !status_case_tied. lia.
Qed.

Lemma StronglySorted_impl {A : Type} (R S : A -> A -> Prop) (l : list A) :
  (forall x y, R x y -> S x y) -> StronglySorted R l -> StronglySorted S l.
Proof.
  intros HRS. induction 1 as [|x l Hl IH Hx]; constructor; auto.
  revert Hx. apply Forall_impl. apply HRS.
Qed.

Lemma In_firstn {A : Type} (n : nat) (l : list A) (x : A) :
  In x (firstn n l) -> In x l.
Proof.
  intros H. rewrite <- (firstn_skipn n l). apply in_or_app. now left.
Qed.

Lemma In_skipn {A : Type} (n : nat) (l : list A) (x : A) :
  In x (skipn n l) -> In x l.
Proof.
  intros H. rewrite <- (firstn_skipn n l). apply in_or_app. now right.
Qed.

Lemma StronglySorted_skipn {A : Type} (R : A -> A -> Prop) (n : nat) (l : list A) :
  StronglySorted R l -> StronglySorted R (skipn n l).
Proof.
  revert l. induction n as [|n IH]; intros l Hl; simpl; [exact Hl|].
  destruct l as [|x l]; [constructor|].
  apply IH. now inversion Hl.
Qed.

Lemma StronglySorted_firstn {A : Type} (R : A -> A -> Prop) (n : nat) (l : list A) :
  StronglySorted R l -> StronglySorted R (firstn n l).
Proof.
  revert l. induction n as [|n IH]; intros l Hl; simpl; [constructor|].
  destruct l as [|x l]; [constructor|].
  inversion Hl as [|? ? Hl' Hx]; subst. constructor; [now apply IH|].
  apply Forall_forall. intros y Hy.
  apply (proj1 (Forall_forall _ _) Hx). eapply In_firstn. exact Hy.
Qed.

Lemma sort_is_ordered (l : list Appointment) :
  StronglySorted admin_list_order (AdminSort.sort l).
Proof.
  apply (StronglySorted_impl (fun x y => is_true (AdminOrder.leb x y))).
  - intros x y H. now apply order_by_leb_iff.
  - apply AdminSort.StronglySorted_sort.
    intros x y z Hxy Hyz. apply order_by_leb_iff.
    apply (admin_list_order_trans x y z); now apply order_by_leb_iff.
Qed.

Lemma status_name_inj (s s' : Status) : status_name s = status_name s' -> s = s'.
Proof. destruct s, s'; simpl; intros H; try reflexivity; discriminate H. Qed.

Lemma where_status_filter (s : Status) (a : Appointment) :
  where_status (Some (status_name s)) a = true -> status a = s.
Proof.
  unfold where_status.
  assert (Ht : truthy (Some (status_name s)) = true) by (now destruct s).
  rewrite Ht. simpl. intros H. apply String.eqb_eq in H.
  now apply status_name_inj.
Qed.

(** C8.  For an admin, a page number of at least 1 and a non-negative page
    size, [listAppointments] answers with rows of the store that pass the
    status filter, sorted by status priority ([pending] before [assigned]
    before [scheduled] before the other statuses), then by [priorityNumber]
    ascending, then by [createdAt] descending; the first page, when it is
    large enough, holds all the rows that pass the filter. *)
Theorem admin_list_is_ordered :
  forall user status_param page limit db,
    auth_role user = admin -> 1 <= page -> 0 <= limit ->
    let selected := filter (where_status status_param) (appointments db) in
    exists rows,
      listAppointments user status_param page limit db
      = list_json rows (Z.of_nat (List.length selected))
      /\ StronglySorted admin_list_order rows
      /\ (forall a, In a rows ->
            In a (appointments db)
            /\ forall s, status_param = Some (status_name s) -> status a = s)
      /\ (page = 1 -> Z.of_nat (List.length selected) <= limit ->
          Permutation selected rows).
Proof.
  intros user status_param page limit db Hadmin Hpage Hlimit selected.
  unfold listAppointments. rewrite Hadmin. simpl negb. cbv iota.
  fold selected.
  assert (Hl : (limit <? 0) = false) by (apply Z.ltb_ge; lia).
  assert (Ho : ((page - 1) * limit <? 0) = false) by (apply Z.ltb_ge; nia).
  rewrite Hl, Ho. simpl orb. cbv iota.
  eexists. split; [reflexivity|]. split; [|split].
  - apply StronglySorted_firstn, StronglySorted_skipn, sort_is_ordered.
  - intros a Ha.
    apply In_firstn, In_skipn in Ha.
    apply (Permutation_in _ (Permutation_sym (AdminSort.Permuted_sort selected))) in Ha.
    unfold selected in Ha. apply filter_In in Ha. destruct Ha as (Ha & Hw).
    split; [exact Ha|]. intros s ->. now apply where_status_filter.
  - intros -> Hall. simpl. rewrite firstn_all2.
    + apply AdminSort.Permuted_sort.
    + rewrite <- (Permutation_length (AdminSort.Permuted_sort selected)). lia.
Qed.

Lemma admin_list_is_ordered_witness :
  exists rows,
    listAppointments Sample.root None 1 20 Sample.all_statuses
    = list_json rows 5
    /\ StronglySorted admin_list_order rows
    /\ map (fun a => (id a, status a, priority_number a)) (appointments Sample.all_statuses)
       = [(1, completed, 1); (2, scheduled, 2); (3, assigned, 3); (4, pending, 4);
          (5, cancelled, 5)]
    /\ map (fun a => (id a, status a, priority_number a)) rows
       = [(4, pending, 4); (3, assigned, 3); (2, scheduled, 2); (1, completed, 1);
          (5, cancelled, 5)].
Proof.
  destruct (admin_list_is_ordered Sample.root None 1 20 Sample.all_statuses
              eq_refl ltac:(lia) ltac:(lia))
    as (rows & Hlist & Hsorted & _ & _).
  exists rows. split; [exact Hlist|]. split; [exact Hsorted|].
  split; [reflexivity|].
  assert (E : list_json rows 5
              = listAppointments Sample.root None 1 20 Sample.all_statuses)
    by (symmetry; exact Hlist).
  vm_compute in E. injection E as ->. reflexivity.
Defined.

(* ===================================================================== *)
(** * The priority queue                                                  *)
(* ===================================================================== *)

Lemma dense_snoc (l : list Z) :
  dense l -> dense (l ++ [Z.of_nat (List.length l) + 1]).
Proof.
  intros (Hnd & Hrange). split.
  - apply (Permutation_NoDup (Permutation_cons_append _ _)).
    constructor; [|exact Hnd]. intros Hin. apply Hrange in Hin. lia.
  - intros n. rewrite in_app_iff, Hrange, length_app. simpl. lia.
Qed.

Lemma active_priorities_app (p : Z) (l l' : list Appointment) :
  active_priorities p (l ++ l') = active_priorities p l ++ active_priorities p l'.
Proof. unfold active_priorities. now rewrite filter_app, map_app. Qed.

(** Creating an appointment keeps I1 for its property as long as every
    cancelled appointment of the property carries a number that some
    non-cancelled one reaches; the insert trigger takes its maximum over
    the cancelled rows as well, so a cancelled row with a greater number
    (the last of the queue, cancelled) opens a gap. *)
Lemma create_keeps_dense (tbl : list Appointment) (NEW : Appointment) :
  status NEW <> cancelled ->
  dense (active_priorities (property_id NEW) tbl) ->
  (forall a, In a tbl -> property_id a = property_id NEW -> status a = cancelled ->
     exists b, In b tbl /\ property_id b = property_id NEW
               /\ status b <> cancelled
               /\ priority_number a <= priority_number b) ->
  dense (active_priorities (property_id NEW)
           (tbl ++ [before_appointment_insert tbl NEW])).
Proof.
  intros Hnew Hdense Hstale.
  set (p := property_id NEW) in *.
  set (l := active_priorities p tbl) in *.
  assert (Hactive : forall n, In n l <->
            exists b, In b tbl /\ property_id b = p /\ status b <> cancelled
                      /\ priority_number b = n).
  { intros n. unfold l, active_priorities. rewrite in_map_iff. split.
    - intros (b & E & Hb). apply filter_In in Hb. destruct Hb as (Hb & Hf).
      apply andb_true_iff in Hf. destruct Hf as (Hp & Hs).
      apply Z.eqb_eq in Hp. apply negb_true_iff, status_eqb_neq in Hs.
      exists b. auto.
    - intros (b & Hb & Hp & Hs & E). exists b. split; [exact E|].
      apply filter_In. split; [exact Hb|].
      apply andb_true_iff. split; [now apply Z.eqb_eq|].
      now apply negb_true_iff, status_eqb_neq. }
  assert (Hrow : priority_number (before_appointment_insert tbl NEW)
                 = Z.of_nat (List.length l) + 1).
  { destruct (before_insert_priority tbl NEW) as (Hfirst & Hnext).
    destruct Hdense as (_ & Hrange).
    destruct (filter (fun a => property_id a =? p) tbl) as [|x xs] eqn:E.
    - assert (Hnone : forall a, In a tbl -> property_id a <> p).
      { intros a Ha Hp.
        assert (Hin : In a (filter (fun a => property_id a =? p) tbl))
          by (apply filter_In; split; [auto|now apply Z.eqb_eq]).
        rewrite E in Hin. destruct Hin. }
      rewrite (Hfirst Hnone).
      destruct l as [|n l'] eqn:El; [reflexivity|].
      exfalso. assert (Hn : In n (n :: l')) by now left.
      apply Hactive in Hn. destruct Hn as (b & Hb & Hp & _).
      now apply (Hnone b).
    - assert (Hx : In x (filter (fun a => property_id a =? p) tbl))
        by (rewrite E; now left).
      apply filter_In in Hx. destruct Hx as (Hx & Hxp). apply Z.eqb_eq in Hxp.
      destruct (Hnext (ex_intro _ x (conj Hx Hxp))) as (m & Hm & Hmp & Hmax & ->).
      f_equal.
      assert (Hb : exists b, In b tbl /\ property_id b = p /\ status b <> cancelled
                             /\ priority_number m <= priority_number b).
      { destruct (status_eqb (status m) cancelled) eqn:Es.
        - apply status_eqb_eq in Es. now apply Hstale.
        - apply status_eqb_neq in Es. exists m. repeat split; auto; lia. }
      destruct Hb as (b & Hb & Hbp & Hbs & Hle).
      assert (Hbl : In (priority_number b) l)
        by (apply Hactive; exists b; auto).
      pose proof (proj1 (Hrange _) Hbl) as Hbr.
      assert (Htop : In (Z.of_nat (List.length l)) l) by (apply Hrange; lia).
      apply Hactive in Htop. destruct Htop as (c & Hc & Hcp & _ & Ec).
      pose proof (Hmax b Hb Hbp). pose proof (Hmax c Hc Hcp). lia. }
  rewrite active_priorities_app. fold l.
  assert (Elast : active_priorities p [before_appointment_insert tbl NEW]
                  = [Z.of_nat (List.length l) + 1]).
  { unfold active_priorities. cbn [filter].
    change (property_id (before_appointment_insert tbl NEW)) with p.
    change (status (before_appointment_insert tbl NEW)) with (status NEW).
    apply status_eqb_neq in Hnew. rewrite Z.eqb_refl, Hnew.
    cbn [negb andb map]. now rewrite Hrow. }
  rewrite Elast. now apply dense_snoc.
Qed.

(** The proviso of [create_keeps_dense] is needed: on a table whose only
    appointment of property 7 is cancelled and carries the number 1, the
    next appointment of the property is numbered 2, and the numbers of the
    property's non-cancelled appointments then start at 2. *)
Remark creation_numbers_after_cancelled_rows :
  let db := snd (createAppointment Sample.env (25 * Sample.hour) "10.0.0.1"
                   Sample.jane Sample.cancelled_once) in
  map (fun a => (id a, status a, priority_number a)) (appointments db)
  = [(1, cancelled, 1); (2, pending, 2)]
  /\ active_priorities 7 (appointments db) = [2]
  /\ ~ dense (active_priorities 7 (appointments db)).
Proof.
  cbv zeta. split; [reflexivity|]. split; [reflexivity|].
  change (active_priorities 7 _) with [2].
  intros (_ & Hrange).
  assert (H : In 2 [2]) by (simpl; auto).
  apply Hrange in H. simpl in H. lia.
Qed.

(* ===================================================================== *)
(** * What every request keeps                                            *)
(* ===================================================================== *)

(** The rows of the table after a successful [UPDATE ... WHERE id = id0]:
    each comes from a row of the table before, rewritten by the [SET] clause
    when its id is [id0]. *)
Lemma in_update_appointment (id0 : Z) (set : Appointment -> Appointment)
    (tbl tbl' : list Appointment) (a' : Appointment) :
  update_appointment id0 set tbl = inr tbl' ->
  In a' tbl' ->
  exists a, In a tbl /\ a' = (if id a =? id0 then set a else a).
Proof.
  intros Hupd Hin. apply update_appointment_rows in Hupd. subst tbl'.
  apply in_map_iff in Hin. destruct Hin as (a & Ea & Ha).
  exists a. split; [exact Ha|now rewrite Ea].
Qed.

(** An update whose [SET] clause keeps a consistent row consistent, for the
    rows with id [id0], keeps the table consistent. *)
Lemma update_consistent (id0 : Z) (set : Appointment -> Appointment)
    (tbl tbl' : list Appointment) :
  update_appointment id0 set tbl = inr tbl' ->
  (forall a, In a tbl -> status_consistent a) ->
  (forall a, In a tbl -> id a = id0 -> status_consistent (set a)) ->
  forall a', In a' tbl' -> status_consistent a'.
Proof.
  intros Hupd Htbl Hset a' Hin.
  destruct (in_update_appointment _ _ _ _ _ Hupd Hin) as (a & Ha & ->).
  destruct (id a =? id0) eqn:E; [|now apply Htbl].
  apply Hset; [exact Ha|now apply Z.eqb_eq].
Qed.

Lemma MAX_lower_bound (l : list Z) (m : Z) :
  (forall x, In x l -> 1 <= x) -> MAX l = Some m -> 1 <= m.
Proof. intros Hl H. apply MAX_spec in H. now apply Hl. Qed.

Lemma inserted_row_consistent (tbl : list Appointment) (NEW : Appointment) :
  (forall a, In a tbl -> 1 <= priority_number a) ->
  status NEW = pending -> assigned_agent_id NEW = None ->
  scheduled_date NEW = None -> scheduled_time NEW = None ->
  outcome NEW = None -> completed_at NEW = None ->
  status_consistent (before_appointment_insert tbl NEW).
Proof.
  intros Htbl Hs Ha Hd Ht Ho Hc.
  unfold status_consistent, before_appointment_insert. simpl.
  rewrite Hs, Ha, Hd, Ht, Ho, Hc.
  repeat split; try discriminate; try tauto;
    try (intros [H|[H|H]]; discriminate H).
  destruct (MAX _) as [m|] eqn:E; simpl; [|lia].
  apply MAX_lower_bound in E; [lia|].
  intros x Hx. apply in_map_iff in Hx. destruct Hx as (a & <- & Hin).
  apply filter_In in Hin. now apply Htbl.
Qed.

(** The row a request of the owner finds is, under the primary key, the
    only row with that id. *)
Lemma owned_row_unique (tbl : list Appointment) (id0 uid : Z)
    (found a : Appointment) :
  primary_key tbl ->
  select_assigned_to id0 uid tbl = Some found ->
  In a tbl -> id a = id0 -> a = found.
Proof.
  intros Hpk Hsel Ha Hid. apply select_assigned_to_Some in Hsel.
  destruct Hsel as (Hf & Hfid & _).
  apply (primary_key_unique tbl); congruence.
Qed.

(** Every request keeps the database consistent. *)
Lemma serve_consistent :
  forall env r db, consistent db -> consistent (snd (serve env r db)).
Proof.
  intros env r db (Hkey & Hrows).
  split; [now apply serve_well_keyed|].
  destruct Hkey as (Hpk & _).
  assert (Hone : forall a, In a (appointments db) -> 1 <= priority_number a).
  { intros a Ha. now destruct (Hrows a Ha). }
  destruct r as [now ip body|user now id0 agentId|user id0 d t notes
                |user now id0 o onotes anotes|user id0 reason]; simpl.
  - unfold createAppointment.
    destruct (_ <? _); [exact Hrows|].
    destruct (recaptcha_gate _ _); [exact Hrows|].
    destruct (filter _ (properties db)); [exact Hrows|].
    destruct (negb _); [exact Hrows|].
    destruct (filter _ (appointments db)); [|exact Hrows].
    simpl. intros row Hrow. apply in_app_iff in Hrow.
    destruct Hrow as [Hrow|[<-|[]]]; [now apply Hrows|].
    now apply inserted_row_consistent.
  - unfold assignAgent.
    destruct (negb _); [exact Hrows|].
    destruct (_ <? _); [exact Hrows|].
    destruct (select_by_id _ _); [|exact Hrows].
    destruct (filter _ _); [exact Hrows|].
    by_update; try exact Hrows.
    simpl. apply (update_consistent _ _ _ _ Eupd); auto.
    intros row Hrow _. destruct (Hrows row Hrow) as (H1 & _ & _ & _ & _ & H6).
    unfold status_consistent. simpl.
    repeat split; try discriminate; try tauto.
  - unfold scheduleAppointment, alone.
    destruct (select_assigned_to _ _ _) as [found|] eqn:Efound; [|exact Hrows].
    destruct (conflicts _ _ _ _ _); [|exact Hrows].
    unfold update_schedule.
    destruct (select_by_id _ _); [|exact Hrows].
    destruct (unique_property_schedule_hit _ _ _ _ _); [exact Hrows|].
    by_update; try exact Hrows.
    simpl. apply (update_consistent _ _ _ _ Eupd); auto.
    intros row Hrow Hid.
    rewrite (owned_row_unique _ _ _ _ _ Hpk Efound Hrow Hid).
    apply select_assigned_to_Some in Efound.
    destruct Efound as (Hf & _ & Hown).
    destruct (Hrows found Hf) as (H1 & _).
    unfold status_consistent. simpl. rewrite Hown.
    repeat split; try discriminate; try tauto.
  - unfold completeAppointment.
    destruct (negb _); [exact Hrows|].
    destruct (select_assigned_to _ _ _) as [found|] eqn:Efound; [|exact Hrows].
    unfold update_complete.
    destruct (select_by_id _ _); [|exact Hrows].
    destruct (outcome_of_string _ _); [exact Hrows|].
    by_update; try exact Hrows.
    simpl. apply (update_consistent _ _ _ _ Eupd); auto.
    intros row Hrow Hid.
    rewrite (owned_row_unique _ _ _ _ _ Hpk Efound Hrow Hid).
    apply select_assigned_to_Some in Efound.
    destruct Efound as (Hf & _ & Hown).
    destruct (Hrows found Hf) as (H1 & _ & _ & _ & _ & H6).
    unfold status_consistent. simpl. rewrite Hown.
    repeat split; try discriminate; try tauto.
  - unfold cancelAppointment.
    destruct (cancel_select _ _ _); [|exact Hrows].
    by_update; try exact Hrows.
    simpl. apply (update_consistent _ _ _ _ Eupd); auto.
    intros row Hrow _. destruct (Hrows row Hrow) as (H1 & _ & _ & _ & _ & H6).
    unfold status_consistent. simpl.
    repeat split; try discriminate; try tauto;
      try (intros [H|[H|H]]; discriminate H).
Qed.

Lemma run_cons (env : Env) (r : Request) (rs : list Request) (db : Db) :
  run env (r :: rs) db = run env rs (snd (serve env r db)).
Proof. reflexivity. Qed.

(** An invariant of the requests is an invariant of the runs. *)
Lemma run_invariant (env : Env) (P : Db -> Prop) :
  (forall r db, P db -> P (snd (serve env r db))) ->
  forall rs db, P db -> P (run env rs db).
Proof.
  intros Hstep rs. induction rs as [|r rs IH]; intros db H; [exact H|].
  rewrite run_cons. apply IH. now apply Hstep.
Qed.

Lemma empty_table_consistent (db : Db) :
  appointments db = [] -> consistent db.
Proof.
  intros E. unfold consistent, well_keyed, primary_key. rewrite E. simpl.
  split; [split; constructor|]. intros row [].
Qed.

(** X1.  Along every run of requests the rows stay consistent with their
    status: priority numbers are at least 1; a pending row has no agent, no
    schedule, no outcome and no completion time; an assigned, scheduled or
    completed row has an agent; a scheduled row has a date and a time; a
    completed row has an outcome and a completion time; a row has a date
    exactly when it has a time.  The ids stay pairwise distinct. *)
Theorem rows_stay_consistent :
  forall env rs db,
    consistent db ->
    primary_key (appointments (run env rs db))
    /\ forall a, In a (appointments (run env rs db)) -> status_consistent a.
Proof.
  intros env rs db H.
  destruct (run_invariant env consistent (serve_consistent env) rs db H)
    as ((Hpk & _) & Hrows).
  split; assumption.
Qed.

Lemma rows_stay_consistent_witness :
  Forall status_consistent
    (appointments
       (run Sample.env
          [PUT_cancel Sample.root 1 None;
           PUT_complete Sample.ana 7200 2 "no_show" None None]
          Sample.booked)).
Proof.
  apply Forall_forall.
  apply (rows_stay_consistent Sample.env
           ([POST_appointment 0 "10.0.0.1" Sample.jane;
             POST_appointment 60 "10.0.0.2" Sample.john;
             PUT_assign Sample.root 100 1 5;
             PUT_assign Sample.root 100 2 5;
             PUT_schedule Sample.ana 1 Sample.march1 Sample.ten None]
            ++ [PUT_cancel Sample.root 1 None;
                PUT_complete Sample.ana 7200 2 "no_show" None None])
           Sample.db0).
  apply empty_table_consistent. reflexivity.
Defined.

(** ** The unique key of the schedule *)

Lemma unique_slots_ext (tbl tbl' : list Appointment) :
  map slot_key tbl' = map slot_key tbl -> unique_slots tbl -> unique_slots tbl'.
Proof.
  intros E H a' b' d t Ha' Hb'.
  assert (Hkey : forall x', In x' tbl' -> exists x, In x tbl /\ slot_key x = slot_key x').
  { intros x' Hx'. apply (in_map slot_key) in Hx'. rewrite E in Hx'.
    apply in_map_iff in Hx'. destruct Hx' as (x & Ex & Hx). exists x. auto. }
  destruct (Hkey a' Ha') as (a & Ha & Ea), (Hkey b' Hb') as (b & Hb & Eb).
  unfold slot_key in Ea, Eb. injection Ea as <- <- <- <-. injection Eb as <- <- <- <-.
  now apply H.
Qed.

Lemma serve_unique_slots (env : Env) (r : Request) (db : Db) :
  primary_key (appointments db) ->
  unique_slots (appointments db) ->
  unique_slots (appointments (snd (serve env r db))).
Proof.
  intros Hpk Huniq.
  assert (Hkeep : forall id0 set tbl',
             (forall x, slot_key (set x) = slot_key x) ->
             update_appointment id0 set (appointments db) = inr tbl' ->
             unique_slots tbl').
  { intros id0 set tbl' Hset Hupd.
    apply (unique_slots_ext (appointments db)); [|exact Huniq].
    now apply (map_col_after_update slot_key id0 set). }
  destruct r as [now ip body|user now id0 agentId|user id0 d t notes
                |user now id0 o onotes anotes|user id0 reason]; simpl.
  - unfold createAppointment.
    destruct (_ <? _); [exact Huniq|].
    destruct (recaptcha_gate _ _); [exact Huniq|].
    destruct (filter _ (properties db)); [exact Huniq|].
    destruct (negb _); [exact Huniq|].
    destruct (filter _ (appointments db)); [|exact Huniq].
    simpl. intros x y d t Hx Hy.
    apply in_app_iff in Hx, Hy.
    destruct Hx as [Hx|[<-|[]]], Hy as [Hy|[<-|[]]];
      try (now apply Huniq); simpl; intros; discriminate.
  - unfold assignAgent.
    destruct (negb _); [exact Huniq|].
    destruct (_ <? _); [exact Huniq|].
    destruct (select_by_id _ _); [|exact Huniq].
    destruct (filter _ _); [exact Huniq|].
    by_update; try exact Huniq.
    simpl. eapply Hkeep; [|exact Eupd]. reflexivity.
  - unfold scheduleAppointment, alone.
    destruct (select_assigned_to _ _ _) as [found|] eqn:Efound; [|exact Huniq].
    destruct (conflicts _ _ _ _ _); [|exact Huniq].
    unfold update_schedule.
    destruct (select_by_id id0 (appointments db)) as [OLD|] eqn:Eold; [|exact Huniq].
    destruct (unique_property_schedule_hit _ _ _ _ _) eqn:Ehit; [exact Huniq|].
    by_update; try exact Huniq.
    simpl.
    assert (Hfree : forall y, In y (appointments db) -> id y <> id0 ->
              property_id y = property_id OLD ->
              scheduled_date y = Some d -> scheduled_time y = Some t -> False).
    { intros y Hy Hid Hp Hd Ht.
      assert (Hheld : slot_held (property_id OLD) id0 d t (appointments db))
        by (exists y; auto).
      apply unique_hit_slot_held in Hheld. congruence. }
    assert (Hrow : forall x', In x' tbl' ->
              exists x, In x (appointments db)
                /\ ((id x <> id0 /\ x' = x)
                    \/ (x = OLD /\ x' = set_scheduled d t (or_null notes) OLD))).
    { intros x' Hx'.
      destruct (in_update_appointment _ _ _ _ _ Eupd Hx') as (x & Hx & Ez).
      exists x. split; [exact Hx|].
      destruct (Z.eqb_spec (id x) id0) as [E|E]; [right|left; now split].
      apply select_by_id_Some in Eold. destruct Eold as (Hold & Hoid).
      assert (x = OLD) by (apply (primary_key_unique (appointments db)); congruence).
      subst x. split; [reflexivity|exact Ez]. }
    apply select_by_id_Some in Eold as Hold'. destruct Hold' as (Hold & Hoid).
    intros a' b' d' t' Ha' Hb' Hne Hp Hda Hdb Hta Htb.
    destruct (Hrow a' Ha') as (a & Ha & [(Hida & ->)|(-> & ->)]),
             (Hrow b' Hb') as (b & Hb & [(Hidb & ->)|(-> & ->)]).
    + exact (Huniq a b d' t' Ha Hb Hne Hp Hda Hdb Hta Htb).
    + simpl in *. injection Hdb as <-. injection Htb as <-.
      exact (Hfree a Ha Hida Hp Hda Hta).
    + simpl in *. injection Hda as <-. injection Hta as <-.
      exact (Hfree b Hb Hidb (eq_sym Hp) Hdb Htb).
    + now apply Hne.
  - unfold completeAppointment.
    destruct (negb _); [exact Huniq|].
    destruct (select_assigned_to _ _ _); [|exact Huniq].
    unfold update_complete.
    destruct (select_by_id _ _); [|exact Huniq].
    destruct (outcome_of_string _ _); [exact Huniq|].
    by_update; try exact Huniq.
    simpl. eapply Hkeep; [|exact Eupd]. reflexivity.
  - unfold cancelAppointment.
    destruct (cancel_select _ _ _); [|exact Huniq].
    by_update; try exact Huniq.
    simpl. eapply Hkeep; [|exact Eupd]. reflexivity.
Qed.

(** ** Rejected requests *)

(** X2.  A request that is not answered with a 2xx status writes nothing:
    the database after it is the database before it. *)
Theorem rejected_request_writes_nothing :
  forall env r db,
    success (fst (serve env r db)) = false -> snd (serve env r db) = db.
Proof.
  intros env r db.
  destruct r as [now ip body|user now id0 agentId|user id0 d t notes
                |user now id0 o onotes anotes|user id0 reason]; simpl.
  - unfold createAppointment.
    destruct (_ <? _); [reflexivity|].
    destruct (recaptcha_gate _ _); [reflexivity|].
    destruct (filter _ (properties db)); [reflexivity|].
    destruct (negb _); [reflexivity|].
    destruct (filter _ (appointments db)); [|reflexivity].
    simpl. discriminate.
  - unfold assignAgent.
    destruct (negb _); [reflexivity|].
    destruct (_ <? _); [reflexivity|].
    destruct (select_by_id _ _); [|reflexivity].
    destruct (filter _ _); [reflexivity|].
    destruct (update_appointment _ _ _); [reflexivity|].
    simpl. discriminate.
  - unfold scheduleAppointment, alone.
    destruct (select_assigned_to _ _ _); [|reflexivity].
    destruct (conflicts _ _ _ _ _); [|reflexivity].
    destruct (update_schedule _ _ _ _ _) as [[| | |]|tbl]; try reflexivity.
    simpl. discriminate.
  - unfold completeAppointment.
    destruct (negb _); [reflexivity|].
    destruct (select_assigned_to _ _ _); [|reflexivity].
    destruct (update_complete _ _ _ _ _ _ _); [reflexivity|].
    simpl. discriminate.
  - unfold cancelAppointment.
    destruct (cancel_select _ _ _); [|reflexivity].
    destruct (update_appointment _ _ _); [reflexivity|].
    simpl. discriminate.
Qed.

Lemma rejected_request_writes_nothing_witness :
  snd (serve Sample.env (PUT_schedule Sample.ana 2 Sample.march1 Sample.ten None)
         Sample.booked)
  = Sample.booked.
Proof.
  apply (rejected_request_writes_nothing Sample.env
           (PUT_schedule Sample.ana 2 Sample.march1 Sample.ten None) Sample.booked).
  reflexivity.
Defined.

(** ** Columns written once *)

Lemma select_same_columns (i : Z) (l l' : list Appointment) (a : Appointment) :
  map creation_columns l' = map creation_columns l ->
  select_by_id i l = Some a ->
  exists a', select_by_id i l' = Some a'
             /\ creation_columns a' = creation_columns a.
Proof.
  unfold select_by_id. revert l'.
  induction l as [|x l IH]; intros [|x' l'] E Hsel; cbn [map find] in *;
    try discriminate.
  remember (creation_columns x') as c' eqn:Ec'.
  remember (creation_columns x) as c eqn:Ec.
  injection E as Ex El. subst c c'.
  assert (Eid : id x' = id x) by (apply (f_equal (fun c => fst (fst (fst (fst
    (fst (fst (fst (fst (fst c)))))))))) in Ex; exact Ex).
  rewrite Eid. destruct (id x =? i).
  - injection Hsel as <-. exists x'. auto.
  - now apply IH.
Qed.

Lemma find_in_app {A : Type} (p : A -> bool) (l l' : list A) (x : A) :
  find p l = Some x -> find p (l ++ l') = Some x.
Proof.
  induction l as [|y l IH]; simpl; [discriminate|].
  destruct (p y); [auto|exact IH].
Qed.

Lemma serve_keeps_creation_columns (env : Env) (r : Request) (db : Db)
    (i : Z) (a : Appointment) :
  select_by_id i (appointments db) = Some a ->
  exists a', select_by_id i (appointments (snd (serve env r db))) = Some a'
             /\ creation_columns a' = creation_columns a.
Proof.
  intros Hsel.
  destruct (serve_keeps_col creation_columns env r db) as [E|(row & E & _)];
    try reflexivity.
  - now apply (select_same_columns i (appointments db)).
  - exists a. split; [|reflexivity].
    rewrite E. unfold select_by_id in *. now apply find_in_app.
Qed.

(** X3.  No request deletes an appointment or rewrites what was stored at
    its creation: along every run, an appointment that exists still exists
    afterwards with the same property, customer name, e-mail, phone, intent
    and message, the same spam score and network address, and the same
    creation time. *)
Theorem creation_columns_are_immutable :
  forall env rs db i a,
    select_by_id i (appointments db) = Some a ->
    exists a', select_by_id i (appointments (run env rs db)) = Some a'
               /\ creation_columns a' = creation_columns a.
Proof.
  intros env rs. induction rs as [|r rs IH]; intros db i a Hsel.
  - exists a. auto.
  - rewrite run_cons.
    destruct (serve_keeps_creation_columns env r db i a Hsel) as (a1 & H1 & E1).
    destruct (IH _ i a1 H1) as (a' & H' & E'). exists a'. split; [exact H'|].
    congruence.
Qed.

Lemma creation_columns_are_immutable_witness :
  exists a',
    select_by_id 1
      (appointments
         (run Sample.env
            [PUT_assign Sample.root 100 1 5;
             PUT_schedule Sample.ana 1 Sample.march1 Sample.ten (Some "called");
             PUT_cancel Sample.root 1 None]
            Sample.requested)) = Some a'
    /\ customer_email a' = "jane@example.com"
    /\ created_at a' = 0.
Proof.
  destruct (creation_columns_are_immutable Sample.env
              [PUT_assign Sample.root 100 1 5;
               PUT_schedule Sample.ana 1 Sample.march1 Sample.ten (Some "called");
               PUT_cancel Sample.root 1 None]
              Sample.requested 1 _ eq_refl) as (a' & H & E).
  exists a'. split; [exact H|].
  unfold creation_columns in E. injection E as _ _ _ He _ _ _ _ _ Hc.
  split; [exact He|exact Hc].
Defined.

(** ** The priority queue along the runs *)

Lemma active_priorities_after_set (p id0 : Z) (set : Appointment -> Appointment)
    (tbl : list Appointment) :
  (forall x, status (set x) <> cancelled) ->
  (forall x, property_id (set x) = property_id x) ->
  (forall x, priority_number (set x) = priority_number x) ->
  (forall a, In a tbl -> status a <> cancelled) ->
  active_priorities p (map (fun a => if id a =? id0 then set a else a) tbl)
  = active_priorities p tbl.
Proof.
  intros Hs Hp Hn. unfold active_priorities.
  induction tbl as [|x tbl IH]; intros Hact; [reflexivity|].
  assert (IH' := IH (fun a Ha => Hact a (or_intror Ha))).
  pose proof (Hact x (or_introl eq_refl)) as Hx. apply status_eqb_neq in Hx.
  cbn [map filter]. destruct (id x =? id0).
  - pose proof (Hs x) as Hsx. apply status_eqb_neq in Hsx.
    rewrite Hp, Hsx, Hx. destruct (property_id x =? p); cbn [andb negb map].
    + now rewrite Hn, IH'.
    + exact IH'.
  - destruct (_ && _); cbn [map]; now rewrite IH'.
Qed.

Lemma in_map_set (id0 : Z) (set : Appointment -> Appointment)
    (tbl : list Appointment) (a' : Appointment) :
  In a' (map (fun a => if id a =? id0 then set a else a) tbl) ->
  exists a, In a tbl /\ (a' = a \/ a' = set a).
Proof.
  intros H. apply in_map_iff in H. destruct H as (a & E & Ha).
  exists a. split; [exact Ha|]. destruct (id a =? id0); auto.
Qed.

Lemma update_queues_dense (id0 : Z) (set : Appointment -> Appointment)
    (tbl : list Appointment) :
  (forall x, status (set x) <> cancelled) ->
  (forall x, property_id (set x) = property_id x) ->
  (forall x, priority_number (set x) = priority_number x) ->
  queues_dense tbl ->
  queues_dense (map (fun a => if id a =? id0 then set a else a) tbl).
Proof.
  intros Hs Hp Hn (Hact & Hdense). split.
  - intros a' Ha'. apply in_map_set in Ha'.
    destruct Ha' as (a & Ha & [->| ->]); auto.
  - intros p. now rewrite active_priorities_after_set.
Qed.

(** On a table without cancelled rows a cancel request writes nothing: it
    finds no row, or the row it finds is not cancelled and the [UPDATE] is
    refused. *)
Lemma cancel_without_cancelled_rows (user : AuthUser) (id0 : Z)
    (reason : option string) (db : Db) :
  (forall a, In a (appointments db) -> status a <> cancelled) ->
  snd (cancelAppointment user id0 reason db) = db.
Proof.
  intros Hact. unfold cancelAppointment.
  destruct (cancel_select _ _ _); [|reflexivity].
  unfold update_appointment.
  destruct (select_by_id id0 (appointments db)) as [OLD|] eqn:Esel.
  - apply select_by_id_Some in Esel. destruct Esel as (Hold & _).
    apply Hact, status_eqb_neq in Hold.
    unfold after_appointment_cancel. now rewrite Hold.
  - now destruct db.
Qed.

(** Every request keeps the queues dense and cancels nothing. *)
Lemma serve_queues_dense (env : Env) (r : Request) (db : Db) :
  queues_dense (appointments db) ->
  queues_dense (appointments (snd (serve env r db))).
Proof.
  intros Hq.
  destruct r as [now ip body|user now id0 agentId|user id0 d t notes
                |user now id0 o onotes anotes|user id0 reason]; simpl.
  - unfold createAppointment.
    destruct (_ <? _); [exact Hq|].
    destruct (recaptcha_gate _ _) as [|score]; [exact Hq|].
    destruct (filter _ (properties db)); [exact Hq|].
    destruct (negb _); [exact Hq|].
    destruct (filter _ (appointments db)); [|exact Hq].
    destruct Hq as (Hact & Hdense). simpl. split.
    + intros row Hrow. apply in_app_iff in Hrow.
      destruct Hrow as [Hrow|[<-|[]]]; [now apply Hact|discriminate].
    + intros q.
      match goal with
      | |- context [before_appointment_insert ?tbl ?NEW] =>
          set (NEW0 := NEW); set (row := before_appointment_insert tbl NEW0)
      end.
      destruct (Z.eq_dec q (propertyId body)) as [->|Hq].
      * apply (create_keeps_dense (appointments db) NEW0);
          [discriminate|apply Hdense|].
        intros x Hx _ Hc. now apply Hact in Hc.
      * rewrite active_priorities_app.
        assert (E : active_priorities q [row] = []).
        { unfold active_priorities. cbn [filter].
          change (property_id row) with (propertyId body).
          apply not_eq_sym, Z.eqb_neq in Hq. now rewrite Hq. }
        rewrite E, app_nil_r. apply Hdense.
  - unfold assignAgent.
    destruct (negb _); [exact Hq|].
    destruct (_ <? _); [exact Hq|].
    destruct (select_by_id _ _); [|exact Hq].
    destruct (filter _ _); [exact Hq|].
    trigger_idle. simpl. apply update_queues_dense; auto; discriminate.
  - unfold scheduleAppointment, alone.
    destruct (select_assigned_to _ _ _); [|exact Hq].
    destruct (conflicts _ _ _ _ _); [|exact Hq].
    unfold update_schedule.
    destruct (select_by_id _ _); [|exact Hq].
    destruct (unique_property_schedule_hit _ _ _ _ _); [exact Hq|].
    trigger_idle. simpl. apply update_queues_dense; auto; discriminate.
  - unfold completeAppointment.
    destruct (negb _); [exact Hq|].
    destruct (select_assigned_to _ _ _); [|exact Hq].
    unfold update_complete.
    destruct (select_by_id _ _); [|exact Hq].
    destruct (outcome_of_string _ _); [exact Hq|].
    trigger_idle. simpl. apply update_queues_dense; auto; discriminate.
  - rewrite cancel_without_cancelled_rows; [exact Hq|]. now destruct Hq.
Qed.

(** X4.  While no appointment is cancelled, I1 holds: along every run
    without a cancel request, started on a table without cancelled rows
    whose queues are dense, the priority numbers of each property form the
    dense sequence 1..N. *)
Theorem queues_dense_without_cancel :
  forall env rs db p,
    forallb (fun r => negb (is_cancel r)) rs = true ->
    (forall a, In a (appointments db) -> status a <> cancelled) ->
    (forall q, dense (active_priorities q (appointments db))) ->
    dense (active_priorities p (appointments (run env rs db))).
Proof.
  intros env rs db p Hrs Hact Hdense.
  assert (H : queues_dense (appointments (run env rs db))).
  { assert (Hq : queues_dense (appointments db)) by (split; assumption).
    clear Hact Hdense. revert db Hq.
    induction rs as [|r rs IH]; intros db Hq; [exact Hq|].
    simpl in Hrs. apply andb_true_iff in Hrs. destruct Hrs as (Hr & Hrs).
    rewrite run_cons. apply (IH Hrs). now apply serve_queues_dense. }
  now destruct H.
Qed.

Lemma queues_dense_without_cancel_witness :
  dense (active_priorities 7 (appointments Sample.booked)).
Proof.
  apply (queues_dense_without_cancel Sample.env
           [POST_appointment 0 "10.0.0.1" Sample.jane;
            POST_appointment 60 "10.0.0.2" Sample.john;
            PUT_assign Sample.root 100 1 5;
            PUT_assign Sample.root 100 2 5;
            PUT_schedule Sample.ana 1 Sample.march1 Sample.ten None]
           Sample.db0 7 eq_refl).
  - intros a [].
  - intros q. split; [constructor|]. simpl. intros n. split; [intros []|lia].
Defined.

(** ** Cancel requests *)

(** X5.  A request to cancel an appointment that is not yet cancelled never
    goes through: whatever the appointment's status and whoever of those
    allowed asks (an admin, or the agent it is assigned to), the [UPDATE]
    fires [after_appointment_cancel], the server refuses the trigger's
    write to the table in use, and the handler answers 500 "Failed to cancel
    appointment"; nothing is written, the appointment keeps its status and
    every priority number stays what it was. *)
Theorem cancelling_live_appointment_is_refused :
  forall user id0 reason db a,
    primary_key (appointments db) ->
    In a (appointments db) -> id a = id0 -> status a <> cancelled ->
    (auth_role user = agent -> assigned_agent_id a = Some (auth_id user)) ->
    cancelAppointment user id0 reason db
    = (json 500 "Failed to cancel appointment", db).
Proof.
  intros user id0 reason db a Hpk Ha Hid Hstatus Hown. subst id0.
  rewrite (cancel_of_found user reason db a Hpk Ha Hown).
  apply status_eqb_neq in Hstatus. now rewrite Hstatus.
Qed.

Lemma cancelling_live_appointment_is_refused_witness :
  cancelAppointment Sample.root 1 (Some "customer called") Sample.booked
  = (json 500 "Failed to cancel appointment", Sample.booked)
  /\ cancelAppointment Sample.ana 2 None Sample.booked
     = (json 500 "Failed to cancel appointment", Sample.booked)
  /\ cancelAppointment Sample.root 1 None Sample.requested
     = (json 500 "Failed to cancel appointment", Sample.requested)
  /\ cancelAppointment Sample.ana 1 None Sample.completed_by_ana
     = (json 500 "Failed to cancel appointment", Sample.completed_by_ana)
  /\ map status (appointments Sample.booked) = [scheduled; assigned]
  /\ map status (appointments Sample.requested) = [pending]
  /\ map status (appointments Sample.completed_by_ana) = [completed].
Proof.
  split; [|split; [|split; [|split; [|repeat split]]]].
  - refine (cancelling_live_appointment_is_refused Sample.root 1
              (Some "customer called") Sample.booked _ _ (or_introl eq_refl)
              eq_refl _ _).
    + primary_key_by_computation.
    + discriminate.
    + discriminate.
  - refine (cancelling_live_appointment_is_refused Sample.ana 2 None
              Sample.booked _ _ (or_intror (or_introl eq_refl)) eq_refl _ _).
    + primary_key_by_computation.
    + discriminate.
    + reflexivity.
  - refine (cancelling_live_appointment_is_refused Sample.root 1 None
              Sample.requested _ _ (or_introl eq_refl) eq_refl _ _).
    + primary_key_by_computation.
    + discriminate.
    + discriminate.
  - refine (cancelling_live_appointment_is_refused Sample.ana 1 None
              Sample.completed_by_ana _ _ (or_introl eq_refl) eq_refl _ _).
    + primary_key_by_computation.
    + discriminate.
    + reflexivity.
Defined.

(** X6.  I1 along every run, cancel requests included: started on a table
    without cancelled rows whose queues are dense (an empty table, for
    one), every run of create, assign, schedule, complete and cancel
    requests leaves the priority numbers of each property's appointments
    the dense sequence 1..N, and no appointment cancelled. *)
Theorem queues_stay_dense :
  forall env rs db,
    (forall a, In a (appointments db) -> status a <> cancelled) ->
    (forall q, dense (active_priorities q (appointments db))) ->
    (forall a, In a (appointments (run env rs db)) -> status a <> cancelled)
    /\ forall p, dense (active_priorities p (appointments (run env rs db))).
Proof.
  intros env rs db Hact Hdense.
  apply (run_invariant env (fun d => queues_dense (appointments d))
           (fun r d => serve_queues_dense env r d) rs db).
  split; assumption.
Qed.

Lemma queues_stay_dense_witness :
  let rs := [POST_appointment 0 "10.0.0.1" (Sample.request_of "a@example.com");
             POST_appointment 60 "10.0.0.2" (Sample.request_of "b@example.com");
             PUT_cancel Sample.root 1 None;
             POST_appointment 120 "10.0.0.3" (Sample.request_of "c@example.com");
             PUT_assign Sample.root 200 2 5;
             PUT_cancel Sample.ana 2 (Some "no answer")] in
  Forall (fun a => status a <> cancelled)
    (appointments (run Sample.env rs Sample.db0))
  /\ dense (active_priorities 7 (appointments (run Sample.env rs Sample.db0)))
  /\ active_priorities 7 (appointments (run Sample.env rs Sample.db0)) = [1; 2; 3]
  /\ map http_status (replies Sample.env rs Sample.db0)
     = [201; 201; 500; 201; 200; 500].
Proof.
  cbv zeta.
  match goal with
  | |- Forall _ (appointments (run ?e ?rs ?db)) /\ _ =>
      assert (H := queues_stay_dense e rs db)
  end.
  destruct H as (Hact & Hdense).
  - intros a [].
  - intros q. split; [constructor|]. simpl. intros n. split; [intros []|lia].
  - split; [now apply Forall_forall|]. split; [apply Hdense|].
    split; reflexivity.
Defined.

(** X7.  Creating an appointment keeps I1 for its property provided every
    cancelled appointment of the property carries a priority number that
    some non-cancelled appointment of the property reaches: the new
    appointment then gets the number N+1. *)
Theorem creating_extends_the_queue :
  forall env now ip body db,
    http_status (fst (createAppointment env now ip body db)) = 201 ->
    dense (active_priorities (propertyId body) (appointments db)) ->
    (forall a, In a (appointments db) -> property_id a = propertyId body ->
       status a = cancelled ->
       exists b, In b (appointments db) /\ property_id b = propertyId body
                 /\ status b <> cancelled
                 /\ priority_number a <= priority_number b) ->
    dense (active_priorities (propertyId body)
             (appointments (snd (createAppointment env now ip body db)))).
Proof.
  intros env now ip body db H201 Hdense Hstale.
  revert H201. unfold createAppointment.
  destruct (_ <? _); [discriminate|].
  destruct (recaptcha_gate _ _) as [r|score].
  { intros _. exact Hdense. }
  destruct (filter _ (properties db)); [discriminate|].
  destruct (negb _); [discriminate|].
  destruct (filter _ (appointments db)); [|discriminate].
  intros _. cbn [snd insert_appointment appointments].
  match goal with
  | |- context [before_appointment_insert ?tbl ?NEW] =>
      apply (create_keeps_dense tbl NEW)
  end; [discriminate|exact Hdense|exact Hstale].
Qed.

Lemma creating_extends_the_queue_witness :
  dense (active_priorities 7
           (appointments
              (snd (createAppointment Sample.env 120 "10.0.0.3"
                      (Sample.request_of "c@example.com") Sample.booked)))).
Proof.
  apply (creating_extends_the_queue Sample.env 120 "10.0.0.3"
           (Sample.request_of "c@example.com") Sample.booked).
  - reflexivity.
  - split.
    + repeat constructor; simpl; intuition discriminate.
    + intros n. simpl. lia.
  - intros a [<-|[<-|[]]] _ Hc; discriminate Hc.
Defined.

(** ** What a successful schedule and a successful completion write *)

Lemma select_other_after_update (i id0 : Z) (set : Appointment -> Appointment)
    (tbl tbl' : list Appointment) :
  (forall x, id (set x) = id x) ->
  i <> id0 ->
  update_appointment id0 set tbl = inr tbl' ->
  select_by_id i tbl' = select_by_id i tbl.
Proof.
  intros Hid Hi Hupd. apply update_appointment_rows in Hupd. subst tbl'.
  unfold select_by_id.
  induction tbl as [|x tbl IH]; [reflexivity|]. cbn [map find].
  destruct (Z.eqb_spec (id x) id0) as [E|E].
  - rewrite Hid.
    assert (Hx : (id x =? i) = false) by (apply Z.eqb_neq; congruence).
    now rewrite Hx.
  - destruct (id x =? i); [reflexivity|exact IH].
Qed.

(** X8.  A schedule request that succeeds (appointment of the caller, slot
    held by no other row of the property) sets the date, the time and the
    status [scheduled] of that appointment and replaces its agent notes by
    the notes of the request, or by [NULL] when the request has none; the
    priority number, the agent, the outcome and the creation columns are
    kept, and so is every other appointment. *)
Theorem scheduling_rewrites_one_row :
  forall user id0 d t notes db a,
    primary_key (appointments db) ->
    select_assigned_to id0 (auth_id user) (appointments db) = Some a ->
    ~ slot_held (property_id a) id0 d t (appointments db) ->
    let db' := snd (scheduleAppointment user id0 d t notes alone db) in
    (exists a',
        select_by_id id0 (appointments db') = Some a'
        /\ scheduled_date a' = Some d /\ scheduled_time a' = Some t
        /\ status a' = scheduled
        /\ agent_notes a' = or_null notes
        /\ priority_number a' = priority_number a
        /\ assigned_agent_id a' = assigned_agent_id a
        /\ outcome a' = outcome a
        /\ creation_columns a' = creation_columns a)
    /\ forall i, i <> id0 ->
         select_by_id i (appointments db') = select_by_id i (appointments db).
Proof.
  intros user id0 d t notes db a Hpk Hsel Hfree db'. subst db'.
  pose proof (select_assigned_is_select_by_id _ _ _ _ Hpk Hsel) as Hid.
  unfold scheduleAppointment, alone. rewrite Hsel.
  destruct (conflicts _ _ _ _ _) as [|c cs] eqn:Ec.
  - unfold update_schedule. rewrite Hid.
    destruct (unique_property_schedule_hit _ _ _ _ _) eqn:Eu.
    + apply unique_hit_slot_held in Eu. contradiction.
    + pose proof (update_without_trigger id0 (set_scheduled d t (or_null notes))
                    (appointments db)) as Hupd.
      specialize (Hupd ltac:(intro; discriminate)).
      rewrite Hupd. cbn [snd appointments with_appointments]. split.
      * eexists. split;
          [exact (select_after_update id0 (set_scheduled d t (or_null notes))
                    _ _ _ (fun _ => eq_refl) Hid Hupd)|].
        repeat split.
      * intros i Hi.
        exact (select_other_after_update i id0 (set_scheduled d t (or_null notes))
                 _ _ (fun _ => eq_refl) Hi Hupd).
  - exfalso. apply Hfree, slot_taken_held, conflicts_slot_taken. congruence.
Qed.

Lemma scheduling_rewrites_one_row_witness :
  exists a',
    select_by_id 2
      (appointments
         (snd (scheduleAppointment Sample.ana 2 Sample.march1 (mkTime 14 30 0)
                 None alone Sample.booked))) = Some a'
    /\ status a' = scheduled /\ agent_notes a' = None.
Proof.
  destruct (scheduling_rewrites_one_row Sample.ana 2 Sample.march1 (mkTime 14 30 0)
              None Sample.booked _ ltac:(primary_key_by_computation) eq_refl)
    as ((a' & H & _ & _ & Hs & Hn & _) & _).
  - intros (other & Hin & _ & _ & _ & Ht).
    simpl in Hin. destruct Hin as [<-|[<-|[]]]; discriminate Ht.
  - exists a'. auto.
Defined.

(** X9.  A completion that succeeds keeps the stored agent notes when the
    request carries no [agentNotes] and replaces them otherwise, by the
    empty string too (what the agent page sends for an empty box); it
    stores the outcome notes of the request, or [NULL] when there are none
    or they are empty, and keeps the scheduled date and time and the
    priority number. *)
Theorem completing_keeps_or_replaces_notes :
  forall env user now id0 o onotes anotes db a,
    primary_key (appointments db) ->
    select_assigned_to id0 (auth_id user) (appointments db) = Some a ->
    In o ["interested"; "offer_made"; "not_interested"; "no_show"] ->
    exists a',
      select_by_id id0
        (appointments (snd (completeAppointment env user now id0 o onotes anotes db)))
      = Some a'
      /\ (anotes = None -> agent_notes a' = agent_notes a)
      /\ (forall n, anotes = Some n -> agent_notes a' = Some n)
      /\ outcome_notes a' = or_null onotes
      /\ scheduled_date a' = scheduled_date a
      /\ scheduled_time a' = scheduled_time a
      /\ priority_number a' = priority_number a.
Proof.
  intros env user now id0 o onotes anotes db a Hpk Hsel Ho.
  pose proof (select_assigned_is_select_by_id _ _ _ _ Hpk Hsel) as Hid.
  unfold completeAppointment.
  assert (Hv : existsb (String.eqb o) outcome_isIn = true).
  { apply outcome_isIn_accepts. simpl in Ho |- *. tauto. }
  rewrite Hv, Hsel. cbn [negb]. unfold update_complete. rewrite Hid.
  destruct (outcome_of_string_enum (strict_sql_mode env) o Ho) as (oc & -> & _).
  pose proof (update_without_trigger id0
                (set_completed oc (or_null onotes) anotes now) (appointments db))
    as Hupd.
  specialize (Hupd ltac:(intro; discriminate)).
  rewrite Hupd. cbn [snd appointments with_appointments].
  eexists. split;
    [exact (select_after_update id0 (set_completed oc (or_null onotes) anotes now)
              _ _ _ (fun _ => eq_refl) Hid Hupd)|].
  cbn [agent_notes outcome_notes scheduled_date scheduled_time priority_number
       set_completed].
  repeat split.
  - now intros ->.
  - now intros n ->.
Qed.

Lemma completing_keeps_or_replaces_notes_witness :
  exists a',
    select_by_id 1
      (appointments
         (snd (completeAppointment Sample.env Sample.ana 7200 1 "no_show" None
                 (Some "") Sample.scheduled_by_ana))) = Some a'
    /\ agent_notes a' = Some "".
Proof.
  destruct (completing_keeps_or_replaces_notes Sample.env Sample.ana 7200 1
              "no_show" None (Some "") Sample.scheduled_by_ana _
              ltac:(primary_key_by_computation) eq_refl)
    as (a' & H & _ & Hn & _).
  - simpl. auto.
  - exists a'. split; [exact H|]. now apply Hn.
Defined.

(** ** verifyRecaptcha *)

Lemma gate_without_secret (env : Env) (token : option string) :
  truthy (RECAPTCHA_SECRET_KEY env) = false ->
  recaptcha_gate env token = inr (if truthy token then Some 1%Q else None).
Proof.
  intros Hkey. unfold recaptcha_gate, verifyRecaptcha. rewrite Hkey.
  now destruct (truthy token).
Qed.

(** X10.  On a server without [RECAPTCHA_SECRET_KEY] the verification is
    skipped: whatever token the request carries, and whatever the
    verification service would say, the request is never answered with the
    verification failure or the suspicious-activity rejection, and an
    appointment created from a request with a token stores the score 1. *)
Theorem unconfigured_recaptcha_lets_requests_through :
  forall env now ip body db,
    truthy (RECAPTCHA_SECRET_KEY env) = false ->
    (forall service,
        createAppointment
          (mkEnv (RECAPTCHA_SECRET_KEY env) service (strict_sql_mode env))
          now ip body db
        = createAppointment env now ip body db)
    /\ fst (createAppointment env now ip body db) <> SuspiciousActivity
    /\ fst (createAppointment env now ip body db) <> RecaptchaFailed
    /\ (truthy (recaptchaToken body) = true ->
        http_status (fst (createAppointment env now ip body db)) = 201 ->
        exists row,
          appointments (snd (createAppointment env now ip body db))
          = appointments db ++ [row]
          /\ recaptcha_score row = Some 1%Q).
Proof.
  intros env now ip body db Hkey.
  pose proof (gate_without_secret env (recaptchaToken body) Hkey) as Hgate.
  split; [|split; [|split]].
  - intros service. unfold createAppointment.
    rewrite (gate_without_secret
               (mkEnv (RECAPTCHA_SECRET_KEY env) service (strict_sql_mode env))
               (recaptchaToken body) Hkey).
    now rewrite Hgate.
  - exact (proj1 (create_past_gate_not_suspicious env now ip body db _ Hgate)).
  - exact (proj1 (proj2 (create_past_gate_not_suspicious env now ip body db _ Hgate))).
  - intros Htok H201. rewrite Htok in Hgate.
    exact (proj2 (proj2 (create_past_gate_not_suspicious env now ip body db _ Hgate))
             H201).
Qed.

Lemma unconfigured_recaptcha_lets_requests_through_witness :
  exists row,
    appointments
      (snd (createAppointment Sample.env 0 "10.0.0.1"
              (Sample.with_token "bot" Sample.jane) Sample.db0))
    = appointments Sample.db0 ++ [row]
    /\ recaptcha_score row = Some 1%Q.
Proof.
  exact (proj2 (proj2 (proj2
           (unconfigured_recaptcha_lets_requests_through Sample.env 0 "10.0.0.1"
              (Sample.with_token "bot" Sample.jane) Sample.db0 eq_refl)))
           eq_refl eq_refl).
Defined.

(** X11.  On a server with a secret, a request with a token is answered
    "reCAPTCHA verification failed" and writes nothing whenever the call to
    the verification service throws or the service does not report
    success; the property, the duplicates and the score are not looked
    at. *)
Theorem failed_verification_rejects :
  forall env now ip body db,
    1 <= propertyId body ->
    truthy (RECAPTCHA_SECRET_KEY env) = true ->
    truthy (recaptchaToken body) = true ->
    (siteverify env (COALESCE (RECAPTCHA_SECRET_KEY env) "")
       (COALESCE (recaptchaToken body) "") = None
     \/ exists response,
          siteverify env (COALESCE (RECAPTCHA_SECRET_KEY env) "")
            (COALESCE (recaptchaToken body) "") = Some response
          /\ rc_success response = false) ->
    createAppointment env now ip body db = (RecaptchaFailed, db).
Proof.
  intros env now ip body db Hid Hkey Htok Hfail.
  unfold createAppointment, recaptcha_gate, verifyRecaptcha.
  assert (Hv : (propertyId body <? 1) = false) by (apply Z.ltb_ge; lia).
  rewrite Hv, Htok, Hkey.
  destruct Hfail as [->|(response & -> & Hno)]; [reflexivity|].
  now rewrite Hno.
Qed.

Lemma failed_verification_rejects_witness :
  createAppointment Sample2.offline_env 0 "10.0.0.1"
    (Sample.with_token "human" Sample.jane) Sample.db0
  = (RecaptchaFailed, Sample.db0).
Proof.
  apply failed_verification_rejects; try reflexivity.
  - simpl. lia.
  - left. reflexivity.
Defined.

(* ===================================================================== *)
(** * The read routes                                                     *)
(* ===================================================================== *)

Lemma date_ltb_before (a b : Date) : date_ltb a b = true <-> date_before a b.
Proof.
  unfold date_ltb, date_before.
  destruct (Z.ltb_spec (year a) (year b)); [split; [intros _; lia|reflexivity]|].
  destruct (Z.ltb_spec (year b) (year a)); [split; [discriminate|lia]|].
  destruct (Z.ltb_spec (month a) (month b)); [split; [intros _; lia|reflexivity]|].
  destruct (Z.ltb_spec (month b) (month a)); [split; [discriminate|lia]|].
  rewrite Z.ltb_lt. lia.
Qed.

Lemma time_ltb_before (a b : Time) : time_ltb a b = true <-> time_before a b.
Proof.
  unfold time_ltb, time_before.
  destruct (Z.ltb_spec (hour a) (hour b)); [split; [intros _; lia|reflexivity]|].
  destruct (Z.ltb_spec (hour b) (hour a)); [split; [discriminate|lia]|].
  destruct (Z.ltb_spec (minute a) (minute b)); [split; [intros _; lia|reflexivity]|].
  destruct (Z.ltb_spec (minute b) (minute a)); [split; [discriminate|lia]|].
  rewrite Z.ltb_lt. lia.
Qed.

Lemma date_trichotomy (a b : Date) :
  ~ date_before a b -> ~ date_before b a -> a = b.
Proof.
  unfold date_before. destruct a, b; simpl. intros H1 H2.
  f_equal; lia.
Qed.

Lemma time_trichotomy (a b : Time) :
  ~ time_before a b -> ~ time_before b a -> a = b.
Proof.
  unfold time_before. destruct a, b; simpl. intros H1 H2.
  f_equal; lia.
Qed.

Lemma date_before_trans (a b c : Date) :
  date_before a b -> date_before b c -> date_before a c.
Proof. unfold date_before. lia. Qed.

Lemma time_before_trans (a b c : Time) :
  time_before a b -> time_before b c -> time_before a c.
Proof. unfold time_before. lia. Qed.

Lemma date_before_irrefl (a : Date) : ~ date_before a a.
Proof. unfold date_before. lia. Qed.

Lemma time_before_irrefl (a : Time) : ~ time_before a a.
Proof. unfold time_before. lia. Qed.

Section NullableOrder.
Context {A : Type} (ltb : A -> A -> bool) (before : A -> A -> Prop).
Hypothesis ltb_before : forall a b, ltb a b = true <-> before a b.
Hypothesis trichotomy : forall a b, ~ before a b -> ~ before b a -> a = b.
Hypothesis before_trans : forall a b c, before a b -> before b c -> before a c.
Hypothesis before_irrefl : forall a, ~ before a a.

Lemma col_compare_Lt_iff (x y : option A) :
  col_compare ltb x y = Lt <-> sorts_before before x y.
Proof.
  destruct x as [a|], y as [b|]; simpl; try (split; [discriminate|tauto]);
    try (split; [auto|reflexivity]).
  rewrite <- ltb_before. destruct (ltb a b); [tauto|].
  destruct (ltb b a); split; discriminate.
Qed.

Lemma col_compare_Eq_iff (x y : option A) :
  col_compare ltb x y = Eq <-> x = y.
Proof.
  destruct x as [a|], y as [b|]; simpl; try (split; discriminate);
    try (split; reflexivity).
  destruct (ltb a b) eqn:E1.
  - split; [discriminate|]. intros H. injection H as ->.
    apply ltb_before in E1. now apply before_irrefl in E1.
  - destruct (ltb b a) eqn:E2.
    + split; [discriminate|]. intros H. injection H as ->.
      apply ltb_before in E2. now apply before_irrefl in E2.
    + split; [|reflexivity]. intros _. f_equal. apply trichotomy.
      * intros H. apply ltb_before in H. congruence.
      * intros H. apply ltb_before in H. congruence.
Qed.

Lemma sorts_before_trans (x y z : option A) :
  sorts_before before x y -> sorts_before before y z -> sorts_before before x z.
Proof.
  destruct x, y, z; simpl; try tauto. apply before_trans.
Qed.
End NullableOrder.

(** The [CASE] expression of the agent list ranks the statuses as its
    status priority does. *)
Lemma my_status_case_before (s s' : Status) :
  my_status_case s < my_status_case s' <-> my_status_before s s'.
Proof.
  split.
  - destruct s, s'; simpl; intros H; try lia; repeat constructor.
  - intros H. inversion H as [|? Ho|? Ho]; subst; simpl; try lia;
      inversion Ho; simpl; lia.
Qed.

Lemma my_status_case_tied (s s' : Status) :
  my_status_case s = my_status_case s' <-> my_status_tied s s'.
Proof.
  unfold my_status_tied. split.
  - destruct s, s'; simpl; intros H; try lia;
      solve [now left | right; split; constructor].
  - intros [->|[Ho Ho']]; [reflexivity|].
    inversion Ho; inversion Ho'; reflexivity.
Qed.

Lemma my_order_by_leb_iff (a b : Appointment) :
  my_order_by_leb a b = true <-> my_list_order a b.
Proof.
  unfold my_order_by_leb, my_list_order.
  rewrite <- my_status_case_before, <- my_status_case_tied.
  pose proof (col_compare_Lt_iff date_ltb date_before date_ltb_before
                (scheduled_date a) (scheduled_date b)) as HLt.
  pose proof (col_compare_Eq_iff date_ltb date_before date_ltb_before
                date_trichotomy date_before_irrefl
                (scheduled_date a) (scheduled_date b)) as HEq.
  destruct (Z.ltb_spec (my_status_case (status a)) (my_status_case (status b)));
    [split; [intros _; now left|reflexivity]|].
  destruct (Z.ltb_spec (my_status_case (status b)) (my_status_case (status a)));
    [split; [discriminate|intros [H'|[H' _]]; lia]|].
  destruct (col_compare date_ltb (scheduled_date a) (scheduled_date b)).
  - rewrite Z.leb_le. split.
    + intros Hp. right. split; [lia|]. right. split; [now apply HEq|exact Hp].
    + intros [H'|[_ [H'|[_ H']]]]; [lia| |exact H'].
      apply HLt in H'. discriminate H'.
  - split; [|reflexivity]. intros _. right. split; [lia|]. left. now apply HLt.
  - split; [discriminate|].
    intros [H'|[_ [H'|[H' _]]]]; [lia| |].
    + apply HLt in H'. discriminate H'.
    + apply HEq in H'. discriminate H'.
Qed.

Lemma my_list_order_trans (a b c : Appointment) :
  my_list_order a b -> my_list_order b c -> my_list_order a c.
Proof.
  unfold my_list_order.
  rewrite <- !my_status_case_before, <- !my_status_case_tied.
  intros [H1|[E1 [H1|[D1 H1]]]] [H2|[E2 [H2|[D2 H2]]]];
    try (left; lia); right; (split; [lia|]).
  - left. exact (sorts_before_trans date_before date_before_trans _ _ _ H1 H2).
  - left. now rewrite <- D2.
  - left. now rewrite D1.
  - right. split; [congruence|lia].
Qed.

Lemma my_sort_is_ordered (l : list Appointment) :
  StronglySorted my_list_order (MySort.sort l).
Proof.
  apply (StronglySorted_impl (fun x y => is_true (MyOrder.leb x y))).
  - intros x y H. now apply my_order_by_leb_iff.
  - apply MySort.StronglySorted_sort.
    intros x y z Hxy Hyz. apply my_order_by_leb_iff.
    apply (my_list_order_trans x y z); now apply my_order_by_leb_iff.
Qed.

(** X12.  The agent list shows the caller's appointments and no other: for
    a page number of at least 1 and a non-negative page size, every row
    returned is stored, is assigned to the caller and passes the status
    filter; the rows are sorted with [assigned] before [scheduled] before
    the other statuses, then by scheduled date ascending, rows without a
    date first, then by priority number ascending; the count is the number
    of the caller's rows that pass the filter, and the first page, when it
    is large enough, holds them all. *)
Theorem my_list_is_mine_and_ordered :
  forall user status_param page limit db,
    1 <= page -> 0 <= limit ->
    let mine :=
      filter (fun a => col_eqb Z.eqb (assigned_agent_id a) (auth_id user)
                       && where_status status_param a)
             (appointments db) in
    exists rows,
      listMyAppointments user status_param page limit db
      = list_json rows (Z.of_nat (List.length mine))
      /\ StronglySorted my_list_order rows
      /\ (forall a, In a rows ->
            In a (appointments db)
            /\ assigned_agent_id a = Some (auth_id user)
            /\ forall s, status_param = Some (status_name s) -> status a = s)
      /\ (page = 1 -> Z.of_nat (List.length mine) <= limit ->
          Permutation mine rows).
Proof.
  intros user status_param page limit db Hpage Hlimit mine.
  unfold listMyAppointments.
  change (filter (where_mine (auth_id user) status_param) (appointments db))
    with mine.
  assert (Hl : (limit <? 0) = false) by (apply Z.ltb_ge; lia).
  assert (Ho : ((page - 1) * limit <? 0) = false) by (apply Z.ltb_ge; nia).
  rewrite Hl, Ho. simpl orb. cbv iota.
  eexists. split; [reflexivity|]. split; [|split].
  - apply StronglySorted_firstn, StronglySorted_skipn, my_sort_is_ordered.
  - intros a Ha.
    apply In_firstn, In_skipn in Ha.
    apply (Permutation_in _ (Permutation_sym (MySort.Permuted_sort mine))) in Ha.
    unfold mine in Ha. apply filter_In in Ha. destruct Ha as (Ha & Hw).
    apply andb_true_iff in Hw. destruct Hw as (Hown & Hw).
    apply (col_eqb_eq Z.eqb Z.eqb_eq) in Hown.
    repeat split; auto. intros s ->. now apply where_status_filter.
  - intros -> Hall. simpl. rewrite firstn_all2.
    + apply MySort.Permuted_sort.
    + rewrite <- (Permutation_length (MySort.Permuted_sort mine)). lia.
Qed.

Lemma my_list_is_mine_and_ordered_witness :
  exists rows,
    listMyAppointments Sample.ana None 1 20 Sample.all_statuses = list_json rows 4
    /\ StronglySorted my_list_order rows
    /\ (forall a, In a rows -> assigned_agent_id a = Some 5)
    /\ map (fun a => (id a, status a, scheduled_date a, priority_number a))
         (filter (fun a => col_eqb Z.eqb (assigned_agent_id a) 5)
            (appointments Sample.all_statuses))
       = [(1, completed, Some Sample.march1, 1); (2, scheduled, Some Sample.march1, 2);
          (3, assigned, None, 3); (5, cancelled, None, 5)]
    /\ map (fun a => (id a, status a, scheduled_date a, priority_number a)) rows
       = [(3, assigned, None, 3); (2, scheduled, Some Sample.march1, 2);
          (5, cancelled, None, 5); (1, completed, Some Sample.march1, 1)].
Proof.
  destruct (my_list_is_mine_and_ordered Sample.ana None 1 20 Sample.all_statuses
              ltac:(lia) ltac:(lia))
    as (rows & Hlist & Hsorted & Hrows & _).
  exists rows. split; [exact Hlist|]. split; [exact Hsorted|].
  split; [intros a Ha; exact (proj1 (proj2 (Hrows a Ha)))|].
  split; [reflexivity|].
  assert (E : list_json rows 4
              = listMyAppointments Sample.ana None 1 20 Sample.all_statuses)
    by (symmetry; exact Hlist).
  vm_compute in E. injection E as ->. reflexivity.
Defined.

(** ** Statistics *)

Lemma sum_of_indicator (p : Appointment -> bool) (tbl : list Appointment) :
  fold_right Z.add 0 (map (fun a => if p a then 1 else 0) tbl)
  = Z.of_nat (List.length (filter p tbl)).
Proof.
  induction tbl as [|x tbl IH]; [reflexivity|].
  cbn [map fold_right filter]. rewrite IH.
  destruct (p x); cbn [List.length]; lia.
Qed.

Lemma sum_case_count (s : Status) (tbl : list Appointment) :
  sum_case s tbl = match tbl with
                   | [] => None
                   | _ :: _ => Some (count_status s tbl)
                   end.
Proof.
  unfold sum_case, count_status. destruct tbl as [|x tbl]; [reflexivity|].
  rewrite <- sum_of_indicator. reflexivity.
Qed.

Lemma statuses_partition (tbl : list Appointment) :
  count_status pending tbl + count_status assigned tbl
  + count_status scheduled tbl + count_status completed tbl
  + count_status cancelled tbl
  = Z.of_nat (List.length tbl).
Proof.
  unfold count_status. induction tbl as [|x tbl IH]; [reflexivity|].
  cbn [filter]. destruct (status x); cbn [status_eqb List.length]; lia.
Qed.

(** X13.  For an admin the statistics count every appointment exactly once:
    on a table that is not empty the five status counts are the numbers of
    rows in each status and add up to the total; on an empty table the total
    is 0 and the five status counts are [NULL], not 0. *)
Theorem stats_count_each_row_once :
  forall user db,
    auth_role user = admin ->
    exists st,
      getStats user db = stats_json st
      /\ stat_total st = Z.of_nat (List.length (appointments db))
      /\ (appointments db = [] ->
          stat_pending st = None /\ stat_assigned st = None
          /\ stat_scheduled st = None /\ stat_completed st = None
          /\ stat_cancelled st = None)
      /\ (appointments db <> [] ->
          exists n1 n2 n3 n4 n5,
            stat_pending st = Some n1 /\ stat_assigned st = Some n2
            /\ stat_scheduled st = Some n3 /\ stat_completed st = Some n4
            /\ stat_cancelled st = Some n5
            /\ n1 = count_status pending (appointments db)
            /\ n2 = count_status assigned (appointments db)
            /\ n3 = count_status scheduled (appointments db)
            /\ n4 = count_status completed (appointments db)
            /\ n5 = count_status cancelled (appointments db)
            /\ n1 + n2 + n3 + n4 + n5 = stat_total st).
Proof.
  intros user db Hadmin. unfold getStats. rewrite Hadmin. cbn [role_eqb negb].
  eexists. split; [reflexivity|].
  cbn [stat_total stat_pending stat_assigned stat_scheduled stat_completed
       stat_cancelled].
  rewrite !sum_case_count. split; [reflexivity|]. split.
  - intros ->. repeat split.
  - intros Hne. destruct (appointments db) as [|x tbl] eqn:E; [congruence|].
    do 5 eexists. repeat split. apply statuses_partition.
Qed.

Lemma stats_count_each_row_once_witness :
  exists st,
    getStats Sample.root Sample.booked = stats_json st
    /\ stat_total st = 2
    /\ stat_scheduled st = Some 1 /\ stat_assigned st = Some 1.
Proof.
  destruct (stats_count_each_row_once Sample.root Sample.booked eq_refl)
    as (st & Hst & Htotal & _ & Hsome).
  exists st. split; [exact Hst|]. split; [exact Htotal|].
  destruct Hsome as (n1 & n2 & n3 & n4 & n5 & _ & H2 & H3 & _ & _ & _ & E2 & E3 & _).
  - discriminate.
  - rewrite H3, H2, E3, E2. split; reflexivity.
Defined.

Lemma filter_filter {A : Type} (p q : A -> bool) (l : list A) :
  filter q (filter p l) = filter (fun x => p x && q x) l.
Proof.
  induction l as [|x l IH]; [reflexivity|]. cbn [filter].
  destruct (p x); cbn [andb filter]; [destruct (q x)|]; now rewrite IH.
Qed.

(** The group of outcome [o] in the [GROUP BY] has [count_outcome o] rows. *)
Lemma outcome_group_count (o : OutcomeEnum) (tbl : list Appointment) :
  Z.of_nat
    (List.length
       (filter (fun a => col_eqb outcome_eqb (outcome a) o)
          (filter (fun a => status_eqb (status a) completed
                            && match outcome a with Some _ => true | None => false end)
             tbl)))
  = count_outcome o tbl.
Proof.
  unfold count_outcome. rewrite filter_filter. do 2 f_equal.
  apply filter_ext. intros a.
  destruct (status_eqb (status a) completed); [|reflexivity].
  now destruct (outcome a).
Qed.

(** What the [outcomes] object of the statistics holds under key [o]: the
    number of completed rows with that outcome, and nothing when there is
    none. *)
Lemma stat_outcomes_get (o : OutcomeEnum) (tbl : list Appointment) :
  obj_get (fold_left (fun acc e => obj_set acc (fst e) (snd e))
             (outcome_groups tbl) []) o
  = if count_outcome o tbl =? 0 then None else Some (count_outcome o tbl).
Proof.
  rewrite <- !outcome_group_count. unfold outcome_groups, outcome_members, COUNT.
  cbn [flat_map].
  set (selected := filter _ tbl).
  destruct o;
  destruct (filter (fun a => col_eqb outcome_eqb (outcome a) enum_error) selected);
    destruct (filter (fun a => col_eqb outcome_eqb (outcome a) interested) selected);
    destruct (filter (fun a => col_eqb outcome_eqb (outcome a) offer_made) selected);
    destruct (filter (fun a => col_eqb outcome_eqb (outcome a) not_interested) selected);
    destruct (filter (fun a => col_eqb outcome_eqb (outcome a) no_show) selected);
    reflexivity.
Qed.

Lemma outcomes_partition (tbl : list Appointment) :
  (forall a, In a tbl -> status a = completed -> outcome a <> None) ->
  count_outcome enum_error tbl + count_outcome interested tbl
  + count_outcome offer_made tbl + count_outcome not_interested tbl
  + count_outcome no_show tbl
  = count_status completed tbl.
Proof.
  unfold count_outcome, count_status.
  induction tbl as [|x tbl IH]; intros Hout; [reflexivity|].
  assert (IH' := IH (fun a Ha => Hout a (or_intror Ha))).
  pose proof (Hout x (or_introl eq_refl)) as Hx.
  cbn [filter]. destruct (status_eqb (status x) completed) eqn:Es.
  - apply status_eqb_eq in Es. specialize (Hx Es).
    destruct (outcome x) as [[| | | |]|]; [..|congruence];
      cbn [andb col_eqb outcome_eqb List.length]; lia.
  - cbn [andb]. exact IH'.
Qed.

(** X14.  Along every run the outcome counts of the statistics add up to
    the number of completed appointments: each completed appointment is
    counted under exactly one outcome key, and a key of the [outcomes]
    object holds the number of completed appointments with that outcome (a
    key without any is absent). *)
Theorem outcome_counts_add_up :
  forall env rs db user,
    consistent db -> auth_role user = admin ->
    exists st,
      getStats user (run env rs db) = stats_json st
      /\ (forall o,
            obj_get (stat_outcomes st) o
            = if count_outcome o (appointments (run env rs db)) =? 0 then None
              else Some (count_outcome o (appointments (run env rs db))))
      /\ fold_right Z.add 0
           (map (fun o => COALESCE (obj_get (stat_outcomes st) o) 0) outcome_members)
         = count_status completed (appointments (run env rs db)).
Proof.
  intros env rs db user Hdb Hadmin.
  pose proof (run_invariant env consistent (serve_consistent env) rs db Hdb)
    as (_ & Hrows).
  set (tbl := appointments (run env rs db)) in *.
  unfold getStats. rewrite Hadmin. cbn [role_eqb negb].
  eexists. split; [reflexivity|]. cbn [stat_outcomes]. fold tbl.
  split; [intros o; apply stat_outcomes_get|].
  rewrite <- (outcomes_partition tbl).
  - unfold outcome_members. cbn [map fold_right].
    rewrite !stat_outcomes_get.
    repeat match goal with
           | |- context [count_outcome ?o tbl =? 0] =>
               destruct (Z.eqb_spec (count_outcome o tbl) 0)
           end; cbn [COALESCE]; lia.
  - intros a Ha Hc. destruct (Hrows a Ha) as (_ & _ & _ & _ & H5 & _).
    now apply H5.
Qed.

Lemma outcome_counts_add_up_witness :
  exists st,
    getStats Sample.root
      (run Sample.env
         [PUT_schedule Sample.ana 2 Sample.march1 (mkTime 11 0 0) None;
          PUT_complete Sample.ana 7200 1 "interested" None None;
          PUT_complete Sample.ana 7300 2 "no_show" None None]
         Sample.booked) = stats_json st
    /\ obj_get (stat_outcomes st) no_show = Some 1
    /\ obj_get (stat_outcomes st) offer_made = None.
Proof.
  destruct (outcome_counts_add_up Sample.env
              ([POST_appointment 0 "10.0.0.1" Sample.jane;
                POST_appointment 60 "10.0.0.2" Sample.john;
                PUT_assign Sample.root 100 1 5;
                PUT_assign Sample.root 100 2 5;
                PUT_schedule Sample.ana 1 Sample.march1 Sample.ten None]
               ++ [PUT_schedule Sample.ana 2 Sample.march1 (mkTime 11 0 0) None;
                   PUT_complete Sample.ana 7200 1 "interested" None None;
                   PUT_complete Sample.ana 7300 2 "no_show" None None])
              Sample.db0 Sample.root)
    as (st & Hst & Hget & _).
  - apply empty_table_consistent. reflexivity.
  - reflexivity.
  - exists st. split; [exact Hst|]. rewrite !Hget. split; reflexivity.
Defined.

(** ** The shared calendar *)

Lemma calendar_order_by_leb_iff (a b : Appointment) :
  calendar_order_by_leb a b = true <-> calendar_order a b.
Proof.
  unfold calendar_order_by_leb, calendar_order.
  pose proof (col_compare_Lt_iff date_ltb date_before date_ltb_before
                (scheduled_date a) (scheduled_date b)) as DLt.
  pose proof (col_compare_Eq_iff date_ltb date_before date_ltb_before
                date_trichotomy date_before_irrefl
                (scheduled_date a) (scheduled_date b)) as DEq.
  pose proof (col_compare_Lt_iff time_ltb time_before time_ltb_before
                (scheduled_time a) (scheduled_time b)) as TLt.
  pose proof (col_compare_Eq_iff time_ltb time_before time_ltb_before
                time_trichotomy time_before_irrefl
                (scheduled_time a) (scheduled_time b)) as TEq.
  destruct (col_compare date_ltb (scheduled_date a) (scheduled_date b)).
  - destruct (col_compare time_ltb (scheduled_time a) (scheduled_time b)).
    + split; [|reflexivity]. intros _. right. split; [now apply DEq|].
      right. now apply TEq.
    + split; [|reflexivity]. intros _. right. split; [now apply DEq|].
      left. now apply TLt.
    + split; [discriminate|]. intros [H|[_ [H|H]]].
      * apply DLt in H. discriminate H.
      * apply TLt in H. discriminate H.
      * apply TEq in H. discriminate H.
  - split; [|reflexivity]. intros _. left. now apply DLt.
  - split; [discriminate|]. intros [H|[H _]].
    + apply DLt in H. discriminate H.
    + apply DEq in H. discriminate H.
Qed.

Lemma calendar_order_trans (a b c : Appointment) :
  calendar_order a b -> calendar_order b c -> calendar_order a c.
Proof.
  unfold calendar_order.
  intros [H1|[D1 [H1|H1]]] [H2|[D2 [H2|H2]]].
  - left. exact (sorts_before_trans date_before date_before_trans _ _ _ H1 H2).
  - left. now rewrite <- D2.
  - left. now rewrite <- D2.
  - left. now rewrite D1.
  - right. split; [congruence|]. left.
    exact (sorts_before_trans time_before time_before_trans _ _ _ H1 H2).
  - right. split; [congruence|]. left. now rewrite <- H2.
  - left. now rewrite D1.
  - right. split; [congruence|]. left. now rewrite H1.
  - right. split; [congruence|]. right. congruence.
Qed.

Lemma calendar_sort_is_ordered (l : list Appointment) :
  StronglySorted calendar_order (CalendarSort.sort l).
Proof.
  apply (StronglySorted_impl (fun x y => is_true (CalendarOrder.leb x y))).
  - intros x y H. now apply calendar_order_by_leb_iff.
  - apply CalendarSort.StronglySorted_sort.
    intros x y z Hxy Hyz. apply calendar_order_by_leb_iff.
    apply (calendar_order_trans x y z); now apply calendar_order_by_leb_iff.
Qed.

Lemma calendar_where_iff (s e : option Date) (m y : option Z) (a : Appointment) :
  calendar_where s e m y a = true <->
  (status a = scheduled \/ status a = completed)
  /\ exists d, scheduled_date a = Some d /\ in_calendar_window s e m y d.
Proof.
  unfold calendar_where, in_calendar_window.
  destruct (scheduled_date a) as [d|].
  - rewrite andb_true_iff, orb_true_iff, !status_eqb_eq.
    assert (Hwin : (match s, e with
                    | Some lo, Some hi => date_between d lo hi
                    | _, _ => match m, y with
                              | Some m0, Some y0 => (month d =? m0) && (year d =? y0)
                              | _, _ => true
                              end
                    end) = true
                   <-> match s, e with
                       | Some lo, Some hi => ~ date_before d lo /\ ~ date_before hi d
                       | _, _ => match m, y with
                                 | Some m0, Some y0 => month d = m0 /\ year d = y0
                                 | _, _ => True
                                 end
                       end).
    { assert (Hmy : (match m, y with
                     | Some m0, Some y0 => (month d =? m0) && (year d =? y0)
                     | _, _ => true
                     end) = true
                    <-> match m, y with
                        | Some m0, Some y0 => month d = m0 /\ year d = y0
                        | _, _ => True
                        end).
      { destruct m, y; try tauto. now rewrite andb_true_iff, !Z.eqb_eq. }
      destruct s as [lo|], e as [hi|]; try exact Hmy.
      unfold date_between.
      rewrite andb_true_iff, !negb_true_iff, <- !date_ltb_before.
      destruct (date_ltb d lo), (date_ltb hi d); intuition congruence. }
    rewrite Hwin. split.
    + intros (Hs & Hw). split; [exact Hs|]. exists d. auto.
    + intros (Hs & d' & E & Hw). injection E as <-. auto.
  - split; [discriminate|]. intros (_ & d & E & _). discriminate E.
Qed.

(** X15.  The shared calendar lists, for any caller, exactly the stored
    appointments that are scheduled or completed, have a date, and fall in
    the window asked for (between [startDate] and [endDate], ends included,
    when both are given; else in the month of the year when both are given;
    else anywhere), each once, sorted by date and then by time.  Cancelled,
    pending and assigned appointments never appear; a window with only one
    of its two ends is ignored. *)
Theorem calendar_lists_the_booked_slots :
  forall user startDate endDate month_param year_param db,
    let rows := getCalendar user startDate endDate month_param year_param db in
    StronglySorted calendar_order rows
    /\ Permutation
         (filter (calendar_where startDate endDate month_param year_param)
            (appointments db))
         rows
    /\ (forall a,
          In a rows <->
          In a (appointments db)
          /\ (status a = scheduled \/ status a = completed)
          /\ exists d, scheduled_date a = Some d
                       /\ in_calendar_window startDate endDate month_param
                            year_param d)
    /\ getCalendar user startDate None month_param year_param db
       = getCalendar user None None month_param year_param db
    /\ getCalendar user None endDate month_param year_param db
       = getCalendar user None None month_param year_param db.
Proof.
  intros user s e m y db rows. unfold rows, getCalendar.
  split; [apply calendar_sort_is_ordered|].
  split; [apply CalendarSort.Permuted_sort|].
  split.
  - intros a. rewrite <- calendar_where_iff, <- filter_In. split.
    + apply Permutation_in, Permutation_sym, CalendarSort.Permuted_sort.
    + apply Permutation_in, CalendarSort.Permuted_sort.
  - split; f_equal; apply filter_ext; intros a; unfold calendar_where;
      destruct (scheduled_date a); try reflexivity; now destruct s.
Qed.

Lemma calendar_lists_the_booked_slots_witness :
  map id (getCalendar Sample.ben (Some (mkDate 2025 3 1)) (Some (mkDate 2025 3 31))
            None None Sample.booked) = [1]
  /\ forall a,
       In a (getCalendar Sample.ben (Some (mkDate 2025 3 1)) (Some (mkDate 2025 3 31))
               None None Sample.booked) ->
       status a = scheduled \/ status a = completed.
Proof.
  split; [reflexivity|].
  intros a Ha.
  apply (proj1 (proj2 (proj2 (calendar_lists_the_booked_slots Sample.ben
                                (Some (mkDate 2025 3 1)) (Some (mkDate 2025 3 31))
                                None None Sample.booked)))) in Ha.
  tauto.
Defined.

(** Well keyed, with the unique key of the schedule. *)
Lemma serve_keeps_unique_key (env : Env) (r : Request) (db : Db) :
  well_keyed db /\ unique_slots (appointments db) ->
  well_keyed (snd (serve env r db))
  /\ unique_slots (appointments (snd (serve env r db))).
Proof.
  intros (Hkey & Huniq). split; [now apply serve_well_keyed|].
  apply serve_unique_slots; [now destruct Hkey|exact Huniq].
Qed.

(** X16.  No double booking: along every run, started on a table that
    respects the primary key and the unique key of the schedule, two
    different appointments never hold the same property, date and time;
    the calendar therefore never shows two appointments on one slot. *)
Theorem no_double_booking :
  forall env rs db,
    well_keyed db -> unique_slots (appointments db) ->
    unique_slots (appointments (run env rs db))
    /\ forall user startDate endDate month_param year_param a b d t,
         In a (getCalendar user startDate endDate month_param year_param
                 (run env rs db)) ->
         In b (getCalendar user startDate endDate month_param year_param
                 (run env rs db)) ->
         id a <> id b -> property_id a = property_id b ->
         scheduled_date a = Some d -> scheduled_date b = Some d ->
         scheduled_time a = Some t -> scheduled_time b = Some t ->
         False.
Proof.
  intros env rs db Hkey Huniq.
  pose proof (run_invariant env
                (fun d => well_keyed d /\ unique_slots (appointments d))
                (serve_keeps_unique_key env) rs db (conj Hkey Huniq))
    as (_ & Hafter).
  split; [exact Hafter|].
  intros user s e m y a b d t Ha Hb.
  assert (Hin : forall x, In x (getCalendar user s e m y (run env rs db)) ->
                          In x (appointments (run env rs db))).
  { intros x Hx. unfold getCalendar in Hx.
    apply (Permutation_in _ (Permutation_sym (CalendarSort.Permuted_sort _))) in Hx.
    now apply filter_In in Hx. }
  apply Hafter; auto.
Qed.

Lemma no_double_booking_witness :
  unique_slots
    (appointments
       (run Sample.env
          [PUT_schedule Sample.ana 2 Sample.march1 Sample.ten None;
           PUT_schedule Sample.ana 2 Sample.march1 (mkTime 11 0 0) None]
          Sample.booked)).
Proof.
  refine (proj1 (no_double_booking Sample.env
            ([POST_appointment 0 "10.0.0.1" Sample.jane;
              POST_appointment 60 "10.0.0.2" Sample.john;
              PUT_assign Sample.root 100 1 5;
              PUT_assign Sample.root 100 2 5;
              PUT_schedule Sample.ana 1 Sample.march1 Sample.ten None]
             ++ [PUT_schedule Sample.ana 2 Sample.march1 Sample.ten None;
                 PUT_schedule Sample.ana 2 Sample.march1 (mkTime 11 0 0) None])
            Sample.db0 _ _)).
  - split; [constructor|constructor].
  - intros a b d t [].
Defined.
